(** * AI-Tutor-Agent: the retrieval core and the fallback generator

    A shallow embedding of
    - [chunkText] (backend/server.js),
    - the [VectorStore] class (backend/vectorStore.js),
    - the fallback paths of [AIService] (backend/aiService.js),
    with the properties the design specification states about them.

    JavaScript values are modelled as the engine has them: a string is its
    sequence of UTF-16 code units, an index is an integer ([Z], because the
    chunker's [start] can become negative), a number that takes part in
    similarity arithmetic is an IEEE-754 binary64 float, and a [throw] is an
    explicit result. *)

From Stdlib Require Import ZArith NArith List Lia Bool String Ascii.
From Stdlib Require Import DecimalString Uint63 Floats Sorted.
From stdpp Require Import gmap.

Open Scope Z_scope.

(** ** JavaScript strings *)

Module JS.

(** A string is the list of its UTF-16 code units. *)
Abbreviation jsstring := (list N).

(** Outcome of a call that may [throw]. *)
Inductive error : Type :=
  | ReferenceError (name : string)
  | Error (message : string).

Inductive result (A : Type) : Type :=
  | Ok (a : A)
  | Throw (e : error).
Arguments Ok {A} a.
Arguments Throw {A} e.

Definition bind {A B} (r : result A) (k : A -> result B) : result B :=
  match r with
  | Ok a => k a
  | Throw e => Throw e
  end.

(** [array.map(f)] for a callback that may throw: elements are visited in
    order and the first exception aborts the whole call. *)
Fixpoint mapM {A B} (f : A -> result B) (l : list A) : result (list B) :=
  match l with
  | [] => Ok []
  | x :: r => bind (f x) (fun y => bind (mapM f r) (fun ys => Ok (y :: ys)))
  end.

(** UTF-8 bytes of a literal to UTF-16 code units. The two characters
    backslash-n of a literal stand for a line feed, as in the JavaScript
    source. *)
Definition cont (b : N) : N := N.land b 63.

Definition units_of_code_point (cp : N) : jsstring :=
  if (cp <? 65536)%N then [cp]
  else let v := (cp - 65536)%N in
       [(55296 + N.shiftr v 10)%N; (56320 + N.land v 1023)%N].

Fixpoint decode (fuel : nat) (bs : list N) : jsstring :=
  match fuel with
  | O => []
  | S fuel =>
    match bs with
    | [] => []
    | 92%N :: 110%N :: r => 10%N :: decode fuel r
    | b0 :: r =>
      if (b0 <? 128)%N then b0 :: decode fuel r
      else if (b0 <? 224)%N then
        match r with
        | b1 :: r => units_of_code_point (N.land b0 31 * 64 + cont b1) ++ decode fuel r
        | _ => []
        end
      else if (b0 <? 240)%N then
        match r with
        | b1 :: b2 :: r =>
          units_of_code_point (N.land b0 15 * 4096 + cont b1 * 64 + cont b2) ++ decode fuel r
        | _ => []
        end
      else
        match r with
        | b1 :: b2 :: b3 :: r =>
          units_of_code_point
            (N.land b0 7 * 262144 + cont b1 * 4096 + cont b2 * 64 + cont b3) ++ decode fuel r
        | _ => []
        end
    end
  end.

Definition bytes_of (s : string) : list N :=
  List.map (fun a => N_of_ascii a) (list_ascii_of_string s).

Definition lit (s : string) : jsstring :=
  decode (String.length s) (bytes_of s).

(** [s.length] of a string or an array, as an index. *)
Definition len {A} (s : list A) : Z := Z.of_nat (length s).

(** A relative index of [slice]: negative counts from the end, and the result
    is clamped to [0 .. length]. *)
Definition rel_index (n i : Z) : Z :=
  if i <? 0 then Z.max (n + i) 0 else Z.min i n.

(** [s.slice(start, end)], of a string or an array. *)
Definition slice {A} (s : list A) (start end_ : Z) : list A :=
  let from := rel_index (len s) start in
  let to := rel_index (len s) end_ in
  take (Z.to_nat (to - from)) (drop (Z.to_nat from) s).

(** Index of the last occurrence of [c] in [s], counted from [i]; [-1] when
    there is none. *)
Fixpoint last_occ (c : N) (s : jsstring) (i : Z) : Z :=
  match s with
  | [] => -1
  | x :: r =>
    let k := last_occ c r (i + 1) in
    if 0 <=? k then k else if (x =? c)%N then i else -1
  end.

(** [s.lastIndexOf(c, position)] for a one-unit search string: [position] is
    clamped to [0 .. length - 1] and the search runs backwards from there. *)
Definition lastIndexOf (c : N) (s : jsstring) (position : Z) : Z :=
  let start := Z.max 0 (Z.min position (len s - 1)) in
  last_occ c (take (Z.to_nat (start + 1)) s) 0.

(** WhiteSpace and LineTerminator code units of ECMAScript, the ones [trim]
    removes. *)
Definition is_space (c : N) : bool :=
  ((9 <=? c) && (c <=? 13) || (c =? 32) || (c =? 160) || (c =? 5760)
   || (8192 <=? c) && (c <=? 8202) || (c =? 8232) || (c =? 8233)
   || (c =? 8239) || (c =? 8287) || (c =? 12288) || (c =? 65279))%N.

Fixpoint trimStart (s : jsstring) : jsstring :=
  match s with
  | [] => []
  | x :: r => if is_space x then trimStart r else s
  end.

Definition trimEnd (s : jsstring) : jsstring := rev (trimStart (rev s)).

(** [s.trim()]. *)
Definition trim (s : jsstring) : jsstring := trimEnd (trimStart s).

(** [s.startsWith(p)] and [s.includes(p)]. *)
Fixpoint startsWith (s p : jsstring) : bool :=
  match p, s with
  | [], _ => true
  | _ :: _, [] => false
  | a :: p', b :: s' => (a =? b)%N && startsWith s' p'
  end.

Fixpoint includes (s p : jsstring) : bool :=
  startsWith s p ||
  match s with
  | [] => false
  | _ :: s' => includes s' p
  end.

(** Strict equality of two strings. *)
Definition str_eqb (a b : jsstring) : bool := bool_decide (a = b).

(** A string has no leading and no trailing white space. *)
Definition trimmed (s : jsstring) : Prop :=
  (forall c r, s = c :: r -> is_space c = false) /\
  (forall c r, s = r ++ [c] -> is_space c = false).

End JS.

(** ** The chunker (backend/server.js) *)

Module Chunker.
Import JS.

Definition period : N := 46.
Definition newline : N := 10.

(** The end of the window that starts at [start]: [start + chunkSize], moved
    back to just after the last sentence terminator when the window ends
    inside the text and the terminator lies in its second half. The test
    [breakPoint > start + chunkSize * 0.5] is written on doubled integers. *)
Definition window_end (text : jsstring) (chunkSize start : Z) : Z :=
  let end_ := start + chunkSize in
  if end_ <? len text then
    let lastPeriod := lastIndexOf period text end_ in
    let lastNewline := lastIndexOf newline text end_ in
    let breakPoint := Z.max lastPeriod lastNewline in
    if 2 * start + chunkSize <? 2 * breakPoint then breakPoint + 1 else end_
  else end_.

(** The [while (start < text.length)] loop; [fuel] bounds the number of
    iterations, and [None] means the bound was reached with the loop still
    running. *)
Fixpoint chunk_loop (fuel : nat) (text : jsstring) (chunkSize overlap start : Z)
    (chunks : list jsstring) : option (list jsstring) :=
  if start <? len text then
    match fuel with
    | O => None
    | S fuel =>
      let end_ := window_end text chunkSize start in
      let chunk := trim (slice text start end_) in
      let chunks := if 0 <? len chunk then chunks ++ [chunk] else chunks in
      chunk_loop fuel text chunkSize overlap (end_ - overlap) chunks
    end
  else Some chunks.

Definition chunkText_fuel (fuel : nat) (text : jsstring) (chunkSize overlap : Z)
    : option (list jsstring) :=
  chunk_loop fuel text chunkSize overlap 0 [].

(** [chunkText(text)] with the default arguments, run for as many iterations
    as the text has code units (enough, see [chunk_loop_terminates]). *)
Definition chunkText_default (text : jsstring) : option (list jsstring) :=
  chunkText_fuel (length text) text 1000 200.

End Chunker.

(** ** The AI service's fallback paths (backend/aiService.js) *)

Module AIService.
Import JS.

(** A retrieved passage handed to the generator: an object with a [text]
    field (what the chat and quiz endpoints build) or a bare string. *)
Inductive context : Type :=
  | CtxObject (text : jsstring)
  | CtxString (s : jsstring).

(** [ctx.text || ctx] inside a template literal: the [text] field when it is
    a non-empty string, otherwise the value itself converted to a string. *)
Definition context_text (ctx : context) : jsstring :=
  match ctx with
  | CtxObject [] => lit "[object Object]"
  | CtxObject text => text
  | CtxString s => s
  end.

(** Decimal digits of a non-negative integer, as a template literal prints it. *)
Definition decimal (n : nat) : jsstring :=
  lit (DecimalString.NilZero.string_of_uint (Nat.to_uint n)).

(** [array.join(sep)]. *)
Fixpoint join (sep : jsstring) (l : list jsstring) : jsstring :=
  match l with
  | [] => []
  | [x] => x
  | x :: r => x ++ sep ++ join sep r
  end.

(** [contexts.map((ctx, i) => `[${i + 1}] ${ctx.text || ctx}`).join('\n\n')]. *)
Definition quote_contexts (contexts : list context) : jsstring :=
  join (lit "\n\n")
       (imap (fun i ctx => lit "[" ++ decimal (i + 1) ++ lit "] " ++ context_text ctx) contexts).

Definition sine_response : jsstring :=
  lit "The sine function is a fundamental trigonometric function:\n\n• **Definition**: sin(θ) = opposite/hypotenuse in a right triangle\n• **Unit Circle**: sin(θ) = y-coordinate on the unit circle\n\n**Key Values**:\n- sin(0°) = 0\n- sin(30°) = 1/2\n- sin(45°) = √2/2\n- sin(60°) = √3/2\n- sin(90°) = 1\n\n**Important Identities**:\n- sin²(θ) + cos²(θ) = 1\n- sin(90° - θ) = cos(θ)\n- sin(-θ) = -sin(θ)\n\nWould you like me to explain any specific application or concept related to sine?".

Definition arrays_response : jsstring :=
  lit "**Arrays** are fundamental data structures:\n\n• **Definition**: A collection of elements stored in contiguous memory locations, accessible by index\n\n• **Key Characteristics**:\n  - Fixed or dynamic size\n  - Zero-based indexing (usually)\n  - Random access (O(1))\n\n• **Time Complexities**:\n  - Access: O(1)\n  - Search: O(n)\n  - Insertion: O(n)\n  - Deletion: O(n)\n\n• **Common Operations**:\n  - Traversal\n  - Searching (linear, binary)\n  - Sorting (bubble, merge, quick)\n  - Insertion/Deletion\n\nWould you like to dive deeper into any specific aspect of arrays?".

Definition greeting_response : jsstring :=
  lit "Hello! 👋 I'm your AI Tutor Agent. I'm here to help you learn! 🎓\n\nI can help you with:\n• Understanding concepts from your study materials\n• Answering questions with explanations\n• Generating quizzes and practice problems\n• Providing step-by-step guidance\n\n**To get the best experience:**\n1. Upload your study materials (PDFs)\n2. Ask me questions based on them\n3. I'll provide answers grounded in your materials\n\nWhat would you like to learn today?".

Definition help_response : jsstring :=
  lit "I'm your AI Tutor Agent! Here's what I can do:\n\n📚 **Study Assistance**:\n- Answer questions from your uploaded study materials\n- Explain concepts step-by-step\n- Provide examples and analogies\n\n📝 **Quiz Generation**:\n- Create quizzes from your study materials\n- Multiple question types (MCQ, short answer)\n- Auto-grading and feedback\n\n💡 **Learning Support**:\n- Break down complex topics\n- Provide personalized explanations\n- Help you understand difficult concepts\n\n**To get started:**\n1. Upload your PDF study materials\n2. Ask me questions about the content\n3. Generate quizzes to test your knowledge\n\nWhat would you like to try first?".

(** The canned topic handlers, in the order the source tests them. *)
Definition is_sine (message : jsstring) : bool :=
  includes message (lit "sin")
  && (includes message (lit "theta") || includes message (lit "θ")).

Definition is_arrays (message : jsstring) : bool :=
  includes message (lit "array") || includes message (lit "dsa")
  || includes message (lit "data structure").

Definition is_greeting (message : jsstring) : bool :=
  str_eqb message (lit "hi") || str_eqb message (lit "hello") || str_eqb message (lit "hey").

Definition is_help (message : jsstring) : bool :=
  includes message (lit "help") || includes message (lit "what can you do").

(** [getHelpfulResponse(message)]. The template of the default response reads
    [contexts.length], but [contexts] is bound neither in this method (its
    only parameter is [message]) nor at module level, so evaluating the
    template throws a ReferenceError before any string is returned. *)
Definition getHelpfulResponse (message : jsstring) : result jsstring :=
  if is_sine message then Ok sine_response
  else if is_arrays message then Ok arrays_response
  else if is_greeting message then Ok greeting_response
  else if is_help message then Ok help_response
  else Throw (ReferenceError "contexts").




(** The integers [lo, lo + 1, ..., hi] a loop [for (i = lo; i <= hi; i++)]
    runs through. *)
Definition range (lo hi : Z) : list Z := seqZ lo (hi - lo + 1).

(** An integer as a double: exact below 2^53, rounded to nearest below 2^63,
    the range of the conversion used. *)
Definition of_Z (z : Z) : float :=
  match z with
  | Z0 => 0%float
  | Zpos _ => PrimFloat.of_uint63 (Uint63.of_Z z)
  | Zneg p => (- PrimFloat.of_uint63 (Uint63.of_Z (Zpos p)))%float
  end.






(** [ToInt32]: wrap an integer into the signed 32-bit range. *)
Definition to_int32 (z : Z) : Z := (z + 2 ^ 31) mod 2 ^ 32 - 2 ^ 31.

(** One round of the hash loop:
    [hash = ((hash << 5) - hash) + text.charCodeAt(i); hash = hash & hash]. *)
Definition hash_step (hash : Z) (c : N) : Z :=
  let hash := to_int32 (to_int32 hash * 2 ^ 5) - hash + Z.of_N c in
  to_int32 hash.

Definition hash_of (text : jsstring) : Z := fold_left hash_step text 0.

(** The double nearest to 0.1. *)
Definition tenth : float := 0x1.999999999999ap-4%float.

Section Engine.

(** Built-ins of the JavaScript engine that the source calls and this file
    does not define: [String.prototype.toLowerCase] (full Unicode case
    mapping) and [Math.sin] (implementation-approximated). *)
Variable toLowerCase : jsstring -> jsstring.
Variable Math_sin : float -> float.

(** [fallbackChatResponse(message, contexts)]. *)
Definition fallbackChatResponse (message : jsstring) (contexts : list context)
    : result jsstring :=
  let lowerMessage := trim (toLowerCase message) in
  if (0 <? length contexts)%nat then
    let contextText := quote_contexts contexts in
    bind (getHelpfulResponse lowerMessage) (fun response =>
      Ok (lit "Based on your study materials:\n\n" ++ contextText ++ lit "\n\n" ++ response))
  else getHelpfulResponse lowerMessage.

(** [generateChatResponse(message, contexts, history)]. [initialized] is the
    flag the constructor sets; [model_reply] is the outcome of the [try]
    block (prompt assembly, the call of the prediction service and the
    unpacking of its answer), whose every exception is caught. *)
Definition generateChatResponse (initialized : bool) (model_reply : result jsstring)
    (message : jsstring) (contexts : list context) : result jsstring :=
  if negb initialized then fallbackChatResponse message contexts
  else match model_reply with
       | Ok content => Ok content
       | Throw _ => fallbackChatResponse message contexts
       end.

(** The 768 components before normalisation:
    [embedding[i] = Math.sin(hash * (i + 1)) * 0.1]. *)
Definition raw_embedding (hash : Z) : list float :=
  List.map (fun i => (Math_sin (of_Z hash * of_Z (i + 1)) * tenth)%float) (seqZ 0 768).

(** [Math.sqrt(embedding.reduce((sum, val) => sum + val * val, 0))]. *)
Definition norm_of (embedding : list float) : float :=
  PrimFloat.sqrt (fold_left (fun sum val => (sum + val * val)%float) embedding 0%float).

(** [fallbackEmbedding(text)]. *)
Definition fallbackEmbedding (text : jsstring) : list float :=
  let embedding := raw_embedding (hash_of text) in
  let norm := norm_of embedding in
  List.map (fun val => (val / norm)%float) embedding.

(** [generateEmbedding(text)], with the outcome of the [try] block as for
    [generateChatResponse]. *)
Definition generateEmbedding (initialized : bool) (model_embedding : result (list float))
    (text : jsstring) : list float :=
  if negb initialized then fallbackEmbedding text
  else match model_embedding with
       | Ok embedding => embedding
       | Throw _ => fallbackEmbedding text
       end.

End Engine.

(** The cubic Taylor polynomial of the sine, one function that maps [+0] to
    [+0] as ECMAScript requires of [Math.sin]. *)
Definition sin_cubic (x : float) : float := (x - x * x * x / 6)%float.

(** ASCII-only lower-casing: what [toLowerCase] does on strings of ASCII
    characters. *)
Definition ascii_toLowerCase (s : jsstring) : jsstring :=
  List.map (fun c => if ((65 <=? c) && (c <=? 90))%N then (c + 32)%N else c) s.

End AIService.

(** ** The in-memory vector store (backend/vectorStore.js) *)

Module VectorStore.
Import JS.

Record Metadata : Type := mkMetadata {
  m_filename : jsstring;
  m_page : Z;
  m_totalPages : Z
}.

(** A stored chunk, as [processPDF] builds it. *)
Record VectorRecord : Type := mkVector {
  v_id : jsstring;
  documentId : jsstring;
  embedding : list float;
  text : jsstring;
  chunkIndex : Z;
  metadata : Metadata
}.

(** An element of [findSimilar]'s answer: the record without its
    [embedding], with its [similarity]. *)
Record SearchResult : Type := mkResult {
  r_id : jsstring;
  r_documentId : jsstring;
  r_text : jsstring;
  r_chunkIndex : Z;
  r_metadata : Metadata;
  similarity : float
}.

(** The metadata [processPDF] registers, and the entry [addDocument] stores:
    [{ ...metadata, id: docId, createdAt }]. *)
Record DocumentMeta : Type := mkMeta {
  filename : jsstring;
  uploadedAt : jsstring;
  numChunks : Z;
  numPages : Z;
  filePath : jsstring
}.

Record Document : Type := mkDocument {
  d_meta : DocumentMeta;
  d_id : jsstring;
  createdAt : jsstring
}.

(** The state of the store: [this.vectors] and [this.documents]. *)
Record store : Type := mkStore {
  vectors : list VectorRecord;
  documents : gmap jsstring Document
}.

(** [new VectorStore()]. *)
Definition empty : store := {| vectors := []; documents := ∅ |}.

(** [addVectors(vectors)]: the new state and the returned count. *)
Definition addVectors (s : store) (new : list VectorRecord) : store * Z :=
  ({| vectors := vectors s ++ new; documents := documents s |}, len new).

(** [addDocument(docId, metadata)]; [now] is [new Date().toISOString()]. *)
Definition addDocument (now : jsstring) (s : store) (docId : jsstring)
    (meta : DocumentMeta) : store :=
  {| vectors := vectors s;
     documents := <[docId := {| d_meta := meta; d_id := docId; createdAt := now |}]>
                    (documents s) |}.

(** The three sums the loop of [cosineSimilarity] accumulates; it runs over
    the indices of [vecA], and is only reached with [vecB] as long. *)
Fixpoint cosine_sums (vecA vecB : list float) (dotProduct normA normB : float)
    : float * float * float :=
  match vecA, vecB with
  | a :: vecA, b :: vecB =>
    cosine_sums vecA vecB (dotProduct + a * b)%float (normA + a * a)%float
                (normB + b * b)%float
  | _, _ => (dotProduct, normA, normB)
  end.

Definition dimension_mismatch : error := Error "Vectors must have the same length".

(** [cosineSimilarity(vecA, vecB)]. *)
Definition cosineSimilarity (vecA vecB : list float) : result float :=
  if negb (length vecA =? length vecB)%nat then Throw dimension_mismatch
  else
    let '(dotProduct, normA, normB) := cosine_sums vecA vecB 0%float 0%float 0%float in
    Ok (dotProduct / (PrimFloat.sqrt normA * PrimFloat.sqrt normB))%float.

(** The specification's words for [cosineSimilarity]: the dot product, summed
    from the left, and the Euclidean norm. *)
Definition dot (a b : list float) : float :=
  fold_left (fun sum p => (sum + p.1 * p.2)%float) (combine a b) 0%float.

Definition euclidean_norm (a : list float) : float := PrimFloat.sqrt (dot a a).

Definition cosine (a b : list float) : float :=
  (dot a b / (euclidean_norm a * euclidean_norm b))%float.

(** The candidates of a query paired with their similarities, in store order. *)
Definition with_similarity {V} (embedding : V -> list float) (q : list float)
    (l : list V) : list (V * float) :=
  List.map (fun v => (v, cosine q (embedding v))) l.

(** [array.sort(compareFn)]: a stable sort; [x] stays in front of [y] unless
    [compareFn(x, y) > 0] (a NaN answer counts as 0). ECMAScript fixes the
    outcome when the comparator is consistent, which it is on numbers that
    are not NaN; the insertion sort below is then the stable sort every
    engine computes. *)
Section Sort.
Context {A : Type} (compareFn : A -> A -> float).

Fixpoint insert_sorted (x : A) (l : list A) : list A :=
  match l with
  | [] => [x]
  | y :: r => if (0 <? compareFn x y)%float then y :: insert_sorted x r else x :: l
  end.

Definition sort (l : list A) : list A := foldr insert_sorted [] l.

End Sort.

(** [(a, b) => b.similarity - a.similarity] on [{ ...vector, similarity }]. *)
Definition by_similarity (a b : VectorRecord * float) : float := (b.2 - a.2)%float.

(** [({ embedding, ...rest }) => rest]. *)
Definition strip (scored : VectorRecord * float) : SearchResult :=
  let (v, sim) := scored in
  {| r_id := v_id v;
     r_documentId := documentId v;
     r_text := text v;
     r_chunkIndex := chunkIndex v;
     r_metadata := metadata v;
     similarity := sim |}.

(** The candidates of a query: all vectors, or those of [filterDocId] when it
    is truthy (a non-empty string). *)
Definition candidates (s : store) (filterDocId : option jsstring) : list VectorRecord :=
  match filterDocId with
  | Some (c :: d) => filter (fun v => documentId v = c :: d) (vectors s)
  | _ => vectors s
  end.

(** [vector => ({ ...vector, similarity })], the callback of the [map]. *)
Definition score (queryEmbedding : list float) (v : VectorRecord)
    : result (VectorRecord * float) :=
  bind (cosineSimilarity queryEmbedding (embedding v)) (fun similarity => Ok (v, similarity)).

(** [findSimilar(queryEmbedding, topK, filterDocId)]. *)
Definition findSimilar (s : store) (queryEmbedding : list float) (topK : Z)
    (filterDocId : option jsstring) : result (list SearchResult) :=
  bind (mapM (score queryEmbedding) (candidates s filterDocId))
       (fun similarities =>
          Ok (List.map strip (slice (sort by_similarity similarities) 0 topK))).

(** [getDocumentVectors(docId)]. *)
Definition getDocumentVectors (s : store) (docId : jsstring) : list VectorRecord :=
  filter (fun v => documentId v = docId) (vectors s).

(** [deleteDocument(docId)]. *)
Definition deleteDocument (s : store) (docId : jsstring) : store :=
  {| vectors := filter (fun v => documentId v <> docId) (vectors s);
     documents := delete docId (documents s) |}.

(** [getDocument(docId)]; [None] is [undefined]. *)
Definition getDocument (s : store) (docId : jsstring) : option Document :=
  documents s !! docId.

(** [getStats()]. *)
Record Stats : Type := mkStats { totalVectors : Z; totalDocuments : Z }.

Definition getStats (s : store) : Stats :=
  {| totalVectors := len (vectors s); totalDocuments := Z.of_nat (size (documents s)) |}.

End VectorStore.

(** ** Binary64 numbers *)

Module Binary64.

(** An order-preserving integer key of a valid number that is not NaN. *)
Definition key (x : spec_float) : Z :=
  match x with
  | S754_zero _ => 0
  | S754_infinity s => cond_Zopp s (2100 * 2 ^ 53)
  | S754_nan => 0
  | S754_finite s m e => cond_Zopp s ((e + 1075) * 2 ^ 53 + Zpos m)
  end.

Definition not_nan (x : spec_float) : Prop := x <> S754_nan.

(** A number of sign [s] that is finite and not zero, or an infinity. *)
Definition signed (s : bool) (x : spec_float) : Prop :=
  (exists m e, x = S754_finite s m e) \/ x = S754_infinity s.

(** A number that is not NaN and has the sign bit [s] (zeros and infinities
    included). *)
Definition of_sign (s : bool) (x : spec_float) : Prop :=
  match x with
  | S754_nan => False
  | S754_zero s' | S754_infinity s' | S754_finite s' _ _ => s' = s
  end.

(** The key of a double; on doubles that are not NaN the order of the keys
    is the order of the numbers. *)
Definition fkey (x : float) : Z := key (Prim2SF x).

End Binary64.

(** ** A small library, for concrete instances of the properties below *)

Module Sample.
Import JS VectorStore.

Definition page_one : Metadata :=
  {| m_filename := lit "notes.pdf"; m_page := 1; m_totalPages := 2 |}.

Definition chunk (id doc : string) (i : Z) (e : list float) (t : string) : VectorRecord :=
  {| v_id := lit id; documentId := lit doc; embedding := e; text := lit t;
     chunkIndex := i; metadata := page_one |}.

Definition a0 : VectorRecord := chunk "doc-a-chunk-0" "doc-a" 0 [1; 0]%float "alpha".
Definition a1 : VectorRecord := chunk "doc-a-chunk-1" "doc-a" 1 [1; 1]%float "beta".
Definition b0 : VectorRecord := chunk "doc-b-chunk-0" "doc-b" 0 [0; 1]%float "gamma".
Definition b1 : VectorRecord := chunk "doc-b-chunk-1" "doc-b" 1 [2; 0]%float "delta".

(** A record whose embedding has one component instead of two. *)
Definition malformed : VectorRecord := chunk "doc-c-chunk-0" "doc-c" 0 [2]%float "short".

(** A record whose embedding is finite and whose square overflows. *)
Definition huge : VectorRecord :=
  chunk "doc-d-chunk-0" "doc-d" 0 [0x1p600; 0]%float "huge".

Definition info (name : string) (n : Z) : DocumentMeta :=
  {| filename := lit name; uploadedAt := lit "2024-01-01T00:00:00.000Z";
     numChunks := n; numPages := 2; filePath := lit "uploads/" ++ lit name |}.

Definition now : jsstring := lit "2024-01-01T00:00:01.000Z".

(** Two documents of two chunks each, ingested as [processPDF] does. *)
Definition library : store :=
  let s := (addVectors empty [a0; a1]).1 in
  let s := addDocument now s (lit "doc-a") (info "a.pdf" 2) in
  let s := (addVectors s [b0; b1]).1 in
  addDocument now s (lit "doc-b") (info "b.pdf" 2).

End Sample.

(** * Properties *)

(** ** Binary64 numbers: the order, and the sign of a difference *)

Section SpecFloatFacts.
Import Binary64.

Lemma digits2_pos_size (p : positive) : digits2_pos p = Pos.size p.
Proof. induction p as [p IH|p IH|]; simpl; rewrite ?IH; reflexivity. Qed.

(** A positive number lies between the powers of two its digits give. *)
Lemma digits2_pos_bounds (p : positive) :
  2 ^ (Zpos (digits2_pos p) - 1) <= Zpos p < 2 ^ Zpos (digits2_pos p).
Proof.
  rewrite digits2_pos_size.
  pose proof (Pos.size_gt p) as Hgt. pose proof (Pos.size_le p) as Hle.
  apply Pos2Z.pos_lt_pos in Hgt. apply Pos2Z.pos_le_pos in Hle.
  rewrite Pos2Z.inj_pow in Hgt, Hle.
  change (Zpos p~0) with (2 * Zpos p) in Hle.
  replace (2 ^ Zpos (Pos.size p)) with (2 * 2 ^ (Zpos (Pos.size p) - 1)) in Hle.
  - lia.
  - rewrite <- Z.pow_succ_r by lia. f_equal. lia.
Qed.

(** What validity of a finite number says about its mantissa and exponent. *)
Lemma bounded_inv (m : positive) (e : Z) :
  bounded prec emax m e = true ->
  -1074 <= e <= 971 /\ Zpos m < 2 ^ 53 /\ (e = -1074 \/ 2 ^ 52 <= Zpos m).
Proof.
  unfold bounded, canonical_mantissa, fexp, SpecFloat.emin, prec, emax.
  intros H. apply andb_true_iff in H. destruct H as [H1 H2].
  apply Z.eqb_eq in H1. apply Z.leb_le in H2.
  pose proof (digits2_pos_bounds m) as [Hlo Hhi].
  assert (Hd : Zpos (digits2_pos m) <= 53) by lia.
  split; [lia|]. split.
  - eapply Z.lt_le_trans; [exact Hhi|]. apply Z.pow_le_mono_r; lia.
  - destruct (Z.eq_dec e (-1074)) as [|Hne]; [left; assumption|right].
    assert (Zpos (digits2_pos m) = 53) as E by lia.
    rewrite E in Hlo. exact Hlo.
Qed.

Lemma SFcompare_key (x y : spec_float) :
  valid_binary x = true -> valid_binary y = true -> not_nan x -> not_nan y ->
  SFcompare x y = Some (key x ?= key y).
Proof.
  unfold not_nan. intros Vx Vy Nx Ny.
  destruct x as [sx|sx| |sx mx ex], y as [sy|sy| |sy my ey]; try congruence;
    simpl in Vx, Vy;
    try (apply bounded_inv in Vx; destruct Vx as (Vx1 & Vx2 & _));
    try (apply bounded_inv in Vy; destruct Vy as (Vy1 & Vy2 & _));
    unfold key, SFcompare;
    try destruct sx; try destruct sy; unfold cond_Zopp; f_equal; symmetry;
    try reflexivity;
    try (apply Z.compare_lt_iff; lia);
    try (apply Z.compare_gt_iff; lia).
  - (* both negative *)
    destruct (Z.compare_spec ex ey) as [E|E|E].
    + subst ey. change (Pos.compare_cont Eq mx my) with (Pos.compare mx my).
      rewrite Pos2Z.inj_compare.
      destruct (Z.compare_spec (Zpos mx) (Zpos my)); simpl CompOpp;
        [apply Z.compare_eq_iff|apply Z.compare_gt_iff|apply Z.compare_lt_iff]; lia.
    + apply Z.compare_gt_iff. lia.
    + apply Z.compare_lt_iff. lia.
  - (* both positive *)
    destruct (Z.compare_spec ex ey) as [E|E|E].
    + subst ey. change (Pos.compare_cont Eq mx my) with (Pos.compare mx my).
      rewrite Pos2Z.inj_compare.
      destruct (Z.compare_spec (Zpos mx) (Zpos my));
        [apply Z.compare_eq_iff|apply Z.compare_lt_iff|apply Z.compare_gt_iff]; lia.
    + apply Z.compare_lt_iff. lia.
    + apply Z.compare_gt_iff. lia.
Qed.

End SpecFloatFacts.

Section RoundingFacts.
Import Binary64.

Lemma shr_1_pow (r : shr_record) (k : Z) :
  0 <= k -> 2 ^ (k + 1) <= shr_m r -> 2 ^ k <= shr_m (shr_1 r).
Proof.
  intros Hk H. rewrite Z.pow_add_r, Z.pow_1_r in H by lia.
  pose proof (Z.pow_pos_nonneg 2 k ltac:(lia) Hk).
  destruct r as [m rb sb]. simpl in *.
  destruct m as [|p|p]; [lia| |lia].
  destruct p as [p|p|]; simpl; lia.
Qed.

Lemma iter_shr_1_pow (p : positive) :
  forall (r : shr_record) (k : Z),
    0 <= k -> 2 ^ (k + Zpos p) <= shr_m r -> 2 ^ k <= shr_m (SpecFloat.iter_pos shr_1 p r).
Proof.
  induction p as [p IH|p IH|]; intros r k Hk H; simpl.
  - apply IH; [exact Hk|]. apply IH; [lia|].
    apply shr_1_pow; [lia|].
    replace (k + Zpos p + Zpos p + 1) with (k + Zpos p~1) by lia. exact H.
  - apply IH; [exact Hk|]. apply IH; [lia|].
    replace (k + Zpos p + Zpos p) with (k + Zpos p~0) by lia. exact H.
  - apply shr_1_pow; assumption.
Qed.

Lemma shr_record_of_loc_m (m : Z) (l : location) : shr_m (shr_record_of_loc m l) = m.
Proof. destruct l as [|[]]; reflexivity. Qed.

(** Shifting a positive mantissa to the format's exponent keeps it positive
    when the exponent is not below the smallest one. *)
Lemma shr_fexp_pos (m e : Z) (l : location) :
  1 <= m -> -1074 <= e ->
  1 <= shr_m (fst (shr_fexp prec emax m e l)) /\ -1074 <= snd (shr_fexp prec emax m e l).
Proof.
  intros Hm He. unfold shr_fexp, shr, fexp, SpecFloat.emin, prec, emax.
  destruct m as [|p|p]; [lia| |lia].
  pose proof (digits2_pos_bounds p) as [Hlo _].
  simpl Zdigits2.
  destruct (Z.max (Zpos (digits2_pos p) + e - 53) (3 - 1024 - 53) - e) as [|n|n] eqn:En;
    simpl fst; simpl snd; rewrite ?shr_record_of_loc_m; try lia.
  split; [|lia].
  change 1 with (2 ^ 0). apply iter_shr_1_pow; [lia|].
  rewrite shr_record_of_loc_m. simpl Z.add.
  eapply Z.le_trans; [|exact Hlo]. apply Z.pow_le_mono_r; lia.
Qed.

Lemma round_nearest_even_ge (m : Z) (l : location) : m <= round_nearest_even m l.
Proof. destruct l as [|[]]; simpl; try destruct (Z.even m); lia. Qed.

(** Rounding a positive mantissa gives a signed number. *)
Lemma binary_round_aux_signed (s : bool) (m e : Z) (l : location) :
  1 <= m -> -1074 <= e -> signed s (binary_round_aux prec emax s m e l).
Proof.
  intros Hm He. unfold binary_round_aux.
  pose proof (shr_fexp_pos m e l Hm He) as [H1 H2].
  destruct (shr_fexp prec emax m e l) as [mrs' e']. simpl in H1, H2.
  pose proof (round_nearest_even_ge (shr_m mrs') (loc_of_shr_record mrs')) as Hr.
  pose proof (shr_fexp_pos (round_nearest_even (shr_m mrs') (loc_of_shr_record mrs')) e'
                loc_Exact ltac:(lia) H2) as [H3 _].
  destruct (shr_fexp prec emax _ e' loc_Exact) as [mrs'' e'']. simpl in H3.
  destruct (shr_m mrs'') as [|p|p]; [lia| |lia].
  destruct (e'' <=? emax - prec); [left; eauto|right; reflexivity].
Qed.

Lemma binary_round_signed (s : bool) (m : positive) (e : Z) :
  -1074 <= e -> signed s (binary_round prec emax s m e).
Proof.
  intros He. unfold binary_round, shl_align.
  set (f := fexp prec emax (Zpos (digits2_pos m) + e)).
  assert (Hf : -1074 <= f).
  { unfold f, fexp, SpecFloat.emin, prec, emax. lia. }
  destruct (f - e) as [|d|d]; apply binary_round_aux_signed; lia.
Qed.

Lemma SFltb_zero_signed (s : bool) (x : spec_float) :
  signed s x -> SFltb (S754_zero false) x = negb s.
Proof. intros [(m & e & ->)| ->]; destruct s; reflexivity. Qed.

(** The sign of a normalised integer is the sign of the integer. *)
Lemma binary_normalize_pos (m e : Z) :
  -1074 <= e ->
  SFltb (S754_zero false) (binary_normalize prec emax m e false) = (0 <? m).
Proof.
  intros He. destruct m as [|p|p]; simpl binary_normalize.
  - reflexivity.
  - rewrite (SFltb_zero_signed false) by (apply binary_round_signed; exact He). reflexivity.
  - rewrite (SFltb_zero_signed true) by (apply binary_round_signed; exact He). reflexivity.
Qed.

Lemma iter_xO (d m : positive) : Zpos (Pos.iter xO m d) = Zpos m * 2 ^ Zpos d.
Proof.
  induction d as [|d IH] using Pos.peano_ind.
  - simpl. lia.
  - rewrite Pos.iter_succ, Pos2Z.inj_succ, Z.pow_succ_r by lia.
    change (Zpos (Pos.iter xO m d)~0) with (2 * Zpos (Pos.iter xO m d)).
    rewrite IH. lia.
Qed.

Lemma shl_align_fst (m : positive) (e e' : Z) :
  e' <= e -> Zpos (fst (shl_align m e e')) = Zpos m * 2 ^ (e - e').
Proof.
  intros H. unfold shl_align.
  destruct (e' - e) as [|d|d] eqn:E; simpl fst.
  - replace (e - e') with 0 by lia. lia.
  - lia.
  - rewrite iter_xO. f_equal. f_equal. lia.
Qed.

End RoundingFacts.

Section DifferenceFacts.
Import Binary64.

(** For two valid finite numbers, comparing the mantissas aligned to the
    smaller exponent is comparing the keys. *)
Lemma aligned_compare (sx sy : bool) (mx my : positive) (ex ey : Z) :
  bounded prec emax mx ex = true -> bounded prec emax my ey = true ->
  (cond_Zopp sx (Zpos (fst (shl_align mx ex (Z.min ex ey))))
   ?= cond_Zopp sy (Zpos (fst (shl_align my ey (Z.min ex ey)))))
  = (key (S754_finite sx mx ex) ?= key (S754_finite sy my ey)).
Proof.
  intros Vx Vy. apply bounded_inv in Vx, Vy.
  destruct Vx as (Hex & Hmx & Nx), Vy as (Hey & Hmy & Ny).
  rewrite !shl_align_fst by lia.
  set (a := Zpos mx * 2 ^ (ex - Z.min ex ey)).
  set (b := Zpos my * 2 ^ (ey - Z.min ex ey)).
  set (kx := (ex + 1075) * 2 ^ 53 + Zpos mx).
  set (ky := (ey + 1075) * 2 ^ 53 + Zpos my).
  assert (Ha : 0 < a) by (apply Z.mul_pos_pos; [lia|apply Z.pow_pos_nonneg; lia]).
  assert (Hb : 0 < b) by (apply Z.mul_pos_pos; [lia|apply Z.pow_pos_nonneg; lia]).
  assert (Hkx : 0 < kx) by (unfold kx; lia).
  assert (Hky : 0 < ky) by (unfold ky; lia).
  assert (M : (a ?= b) = (kx ?= ky)).
  { destruct (Z.lt_trichotomy ex ey) as [L|[E|G]].
    - assert (2 <= 2 ^ (ey - Z.min ex ey)).
      { change 2 with (2 ^ 1) at 1. apply Z.pow_le_mono_r; lia. }
      assert (a = Zpos mx).
      { unfold a. replace (ex - Z.min ex ey) with 0 by lia. lia. }
      assert (a < b) by (unfold b; nia).
      assert (kx < ky) by (unfold kx, ky; lia).
      transitivity Lt; [apply Z.compare_lt_iff|symmetry; apply Z.compare_lt_iff]; assumption.
    - subst ey. unfold a, b, kx, ky.
      replace (ex - Z.min ex ex) with 0 by lia. rewrite !Z.mul_1_r.
      destruct (Z.compare_spec (Zpos mx) (Zpos my)); symmetry;
        [apply Z.compare_eq_iff|apply Z.compare_lt_iff|apply Z.compare_gt_iff]; lia.
    - assert (2 <= 2 ^ (ex - Z.min ex ey)).
      { change 2 with (2 ^ 1) at 1. apply Z.pow_le_mono_r; lia. }
      assert (b = Zpos my).
      { unfold b. replace (ey - Z.min ex ey) with 0 by lia. lia. }
      assert (b < a) by (unfold a; nia).
      assert (ky < kx) by (unfold kx, ky; lia).
      transitivity Gt; [apply Z.compare_gt_iff|symmetry; apply Z.compare_gt_iff]; assumption. }
  unfold key. fold kx. fold ky.
  destruct sx, sy; unfold cond_Zopp.
  - rewrite !Z.compare_opp. rewrite (Z.compare_antisym a b), (Z.compare_antisym kx ky), M.
    reflexivity.
  - transitivity Lt; [apply Z.compare_lt_iff|symmetry; apply Z.compare_lt_iff]; lia.
  - transitivity Gt; [apply Z.compare_gt_iff|symmetry; apply Z.compare_gt_iff]; lia.
  - exact M.
Qed.

Lemma ltb_of_compare (a b : Z) :
  (0 <? b - a) = match a ?= b with Lt => true | _ => false end.
Proof.
  destruct (Z.compare_spec a b); [apply Z.ltb_ge|apply Z.ltb_lt|apply Z.ltb_ge]; lia.
Qed.

(** The difference of two numbers is positive exactly when the second is
    below the first. *)
Lemma SFsub_pos (x y : spec_float) :
  valid_binary x = true -> valid_binary y = true -> not_nan x -> not_nan y ->
  SFltb (S754_zero false) (SFsub prec emax y x) = SFltb x y.
Proof.
  intros Vx Vy Nx Ny.
  unfold SFltb at 2. rewrite (SFcompare_key x y Vx Vy Nx Ny).
  unfold not_nan in *.
  destruct x as [sx|sx| |sx mx ex], y as [sy|sy| |sy my ey]; try congruence.
  9: { unfold SFsub. cbv zeta. rewrite (Z.min_comm ey ex), binary_normalize_pos.
        - rewrite ltb_of_compare, (aligned_compare sx sy mx my ex ey Vx Vy). reflexivity.
        - simpl in Vx, Vy. apply bounded_inv in Vx, Vy. lia. }
  all: simpl in Vx, Vy;
    try (apply bounded_inv in Vx; destruct Vx as (Vx1 & Vx2 & _));
    try (apply bounded_inv in Vy; destruct Vy as (Vy1 & Vy2 & _));
    try destruct sx; try destruct sy; simpl SFsub; unfold SFltb, SFcompare, key, cond_Zopp;
    try reflexivity;
    match goal with
    | |- _ = match ?a ?= ?b with _ => _ end => destruct (Z.compare_spec a b); try reflexivity; lia
    end.
Qed.

End DifferenceFacts.

Section PrimFloatOrder.
Import Binary64.

Lemma is_nan_not_nan (x : float) : PrimFloat.is_nan x = false -> not_nan (Prim2SF x).
Proof.
  unfold PrimFloat.is_nan, not_nan. rewrite FloatAxioms.eqb_spec. intros H E.
  rewrite E in H. discriminate.
Qed.

Lemma ltb_key (x y : float) :
  PrimFloat.is_nan x = false -> PrimFloat.is_nan y = false ->
  (x <? y)%float = (fkey x <? fkey y).
Proof.
  intros Nx Ny. rewrite FloatAxioms.ltb_spec. unfold SFltb, fkey.
  rewrite SFcompare_key by auto using Prim2SF_valid, is_nan_not_nan.
  destruct (Z.compare_spec (key (Prim2SF x)) (key (Prim2SF y))); symmetry;
    [apply Z.ltb_ge|apply Z.ltb_lt|apply Z.ltb_ge]; lia.
Qed.

Lemma leb_key (x y : float) :
  PrimFloat.is_nan x = false -> PrimFloat.is_nan y = false ->
  (x <=? y)%float = (fkey x <=? fkey y).
Proof.
  intros Nx Ny. rewrite FloatAxioms.leb_spec. unfold SFleb, fkey.
  rewrite SFcompare_key by auto using Prim2SF_valid, is_nan_not_nan.
  destruct (Z.compare_spec (key (Prim2SF x)) (key (Prim2SF y))); symmetry;
    [apply Z.leb_le|apply Z.leb_le|apply Z.leb_gt]; lia.
Qed.

Lemma eqb_key (x y : float) :
  PrimFloat.is_nan x = false -> PrimFloat.is_nan y = false ->
  (x =? y)%float = (fkey x =? fkey y).
Proof.
  intros Nx Ny. rewrite FloatAxioms.eqb_spec. unfold SFeqb, fkey.
  rewrite SFcompare_key by auto using Prim2SF_valid, is_nan_not_nan.
  destruct (Z.compare_spec (key (Prim2SF x)) (key (Prim2SF y))); symmetry;
    [apply Z.eqb_eq|apply Z.eqb_neq|apply Z.eqb_neq]; lia.
Qed.

Lemma eqb_nan_l (x y : float) : PrimFloat.is_nan x = true -> (x =? y)%float = false.
Proof.
  unfold PrimFloat.is_nan. rewrite !FloatAxioms.eqb_spec. unfold SFeqb.
  destruct (Prim2SF x); try discriminate; try reflexivity.
  - destruct s; discriminate.
  - simpl. rewrite Pos.compare_cont_refl. destruct s; rewrite Z.compare_refl; discriminate.
Qed.

(** A comparator answer [y - x] is positive exactly when [x < y]. *)
Lemma sub_pos (x y : float) :
  PrimFloat.is_nan x = false -> PrimFloat.is_nan y = false ->
  (0 <? y - x)%float = (x <? y)%float.
Proof.
  intros Nx Ny. rewrite !FloatAxioms.ltb_spec, FloatAxioms.sub_spec.
  change (Prim2SF 0) with (S754_zero false).
  apply SFsub_pos; auto using Prim2SF_valid, is_nan_not_nan.
Qed.

End PrimFloatOrder.

Section ExactRounding.
Import Binary64.


Lemma shr_1_div (r : shr_record) : 0 <= shr_m r -> shr_m (shr_1 r) = shr_m r / 2.
Proof.
  destruct r as [m rb sb]. simpl. intros H.
  destruct m as [|p|p]; [reflexivity| |lia].
  destruct p as [p|p|]; simpl shr_m.
  - apply (Z.div_unique_pos _ 2 _ 1); lia.
  - apply (Z.div_unique_pos _ 2 _ 0); lia.
  - reflexivity.
Qed.

Lemma iter_shr_1_div (p : positive) :
  forall r : shr_record,
    0 <= shr_m r -> shr_m (SpecFloat.iter_pos shr_1 p r) = shr_m r / 2 ^ Zpos p.
Proof.
  assert (Hdiv : forall m a b, 0 < a -> 0 < b -> m / a / b = m / (a * b)).
  { intros. apply Z.div_div; lia. }
  assert (Hnn : forall r, 0 <= shr_m r -> 0 <= shr_m (shr_1 r)).
  { intros r H. rewrite shr_1_div by exact H. apply Z.div_pos; lia. }
  induction p as [p IH|p IH|]; intros r H; simpl SpecFloat.iter_pos.
  - assert (H1 := Hnn r H).
    assert (H2 : 0 <= shr_m (SpecFloat.iter_pos shr_1 p (shr_1 r))).
    { rewrite IH by exact H1. apply Z.div_pos; [exact H1|apply Z.pow_pos_nonneg; lia]. }
    rewrite IH by exact H2. rewrite IH by exact H1. rewrite shr_1_div by exact H.
    pose proof (Z.pow_pos_nonneg 2 (Zpos p) ltac:(lia) ltac:(lia)) as Hp.
    rewrite !Hdiv by (try apply Z.mul_pos_pos; lia).
    f_equal. replace (Zpos p~1) with (1 + (Zpos p + Zpos p)) by lia.
    rewrite !Z.pow_add_r by lia. change (2 ^ 1) with 2. ring.
  - assert (H2 : 0 <= shr_m (SpecFloat.iter_pos shr_1 p r)).
    { rewrite IH by exact H. apply Z.div_pos; [exact H|apply Z.pow_pos_nonneg; lia]. }
    rewrite IH by exact H2. rewrite IH by exact H.
    pose proof (Z.pow_pos_nonneg 2 (Zpos p) ltac:(lia) ltac:(lia)) as Hp.
    rewrite !Hdiv by lia.
    f_equal. replace (Zpos p~0) with (Zpos p + Zpos p) by lia.
    rewrite Z.pow_add_r by lia. reflexivity.
  - rewrite shr_1_div by exact H. reflexivity.
Qed.



End ExactRounding.

Section NaNFree.
Import Binary64.

Lemma shr_nonneg (r : shr_record) (e n : Z) : 0 <= shr_m r -> 0 <= shr_m (fst (shr r e n)).
Proof.
  intros H. unfold shr. destruct n as [|p|p]; simpl fst; try exact H.
  rewrite iter_shr_1_div by exact H.
  apply Z.div_pos; [exact H|apply Z.pow_pos_nonneg; lia].
Qed.

Lemma shr_fexp_nonneg (m e : Z) (l : location) :
  0 <= m -> 0 <= shr_m (fst (shr_fexp prec emax m e l)).
Proof.
  intros H. unfold shr_fexp. apply shr_nonneg. rewrite shr_record_of_loc_m. exact H.
Qed.

(** Rounding a mantissa that is not negative never gives NaN, and keeps the
    sign. *)
Lemma binary_round_aux_of_sign (s : bool) (m e : Z) (l : location) :
  0 <= m -> of_sign s (binary_round_aux prec emax s m e l).
Proof.
  intros Hm. unfold binary_round_aux.
  pose proof (shr_fexp_nonneg m e l Hm) as H1.
  destruct (shr_fexp prec emax m e l) as [mrs' e']. simpl in H1.
  pose proof (round_nearest_even_ge (shr_m mrs') (loc_of_shr_record mrs')) as Hr.
  pose proof (shr_fexp_nonneg (round_nearest_even (shr_m mrs') (loc_of_shr_record mrs')) e'
                loc_Exact ltac:(lia)) as H3.
  destruct (shr_fexp prec emax _ e' loc_Exact) as [mrs'' e'']. simpl in H3.
  destruct (shr_m mrs'') as [|p|p]; [reflexivity| |lia].
  destruct (e'' <=? emax - prec); reflexivity.
Qed.

Lemma binary_round_of_sign (s : bool) (m : positive) (e : Z) :
  of_sign s (binary_round prec emax s m e).
Proof.
  unfold binary_round.
  destruct (shl_align m e (fexp prec emax (Zpos (digits2_pos m) + e))) as [mz ez].
  apply binary_round_aux_of_sign. lia.
Qed.

(** A square is not NaN and not negative when its argument is not NaN. *)
Lemma SFmul_square (x : spec_float) : not_nan x -> of_sign false (SFmul prec emax x x).
Proof.
  intros N. destruct x as [s|s| |s m e]; simpl; try apply xorb_nilpotent.
  - apply N. reflexivity.
  - rewrite xorb_nilpotent. apply binary_round_aux_of_sign. lia.
Qed.

Lemma SFadd_of_sign (x y : spec_float) :
  of_sign false x -> of_sign false y -> of_sign false (SFadd prec emax x y).
Proof.
  destruct x as [sx|sx| |sx mx ex], y as [sy|sy| |sy my ey]; simpl;
    intros Hx Hy; subst; try reflexivity; try contradiction.
  simpl cond_Zopp.
  apply binary_round_of_sign.
Qed.

Lemma SFsqrt_of_sign (x : spec_float) : of_sign false x -> of_sign false (SFsqrt prec emax x).
Proof.
  destruct x as [s|s| |s m e]; simpl; intros H; subst; try reflexivity; try contradiction.
  unfold SFsqrt_core_binary.
  set (m' := match _ - 2 * _ with Z0 => Zpos m | Zpos _ => _ | Zneg _ => 0 end).
  pose proof (Z.sqrtrem_sqrt m') as Hq. pose proof (Z.sqrt_nonneg m') as Hs.
  destruct (Z.sqrtrem m') as [q r]. simpl in Hq. subst q.
  apply binary_round_aux_of_sign. exact Hs.
Qed.

(** A quotient with a dividend that is finite and a divisor that is not NaN
    is NaN exactly when both are zeros. *)
Lemma SFdiv_nan (x y : spec_float) :
  match x with S754_zero _ | S754_finite _ _ _ => True | _ => False end ->
  not_nan y ->
  (SFdiv prec emax x y = S754_nan <->
   (exists sx, x = S754_zero sx) /\ (exists sy, y = S754_zero sy)).
Proof.
  intros Hx Hy.
  destruct x as [sx|sx| |sx mx ex]; try contradiction;
    destruct y as [sy|sy| |sy my ey]; simpl; try (exfalso; apply Hy; reflexivity);
    try (split; [discriminate|intros [[? ?] [? ?]]; discriminate]).
  - split; [intros _; split; eauto|reflexivity].
  - unfold SFdiv_core_binary.
    set (m' := match _ - _ - _ with Z0 => Zpos mx | Zpos _ => _ | Zneg _ => 0 end).
    assert (Hm' : 0 <= m').
    { unfold m'. destruct (_ - _ - _) as [|p|p]; try lia. apply Z.shiftl_nonneg. lia. }
    pose proof (Z.div_eucl_eq m' (Zpos my) ltac:(lia)) as Hd.
    pose proof (Z.mod_pos_bound m' (Zpos my) ltac:(lia)) as Hr.
    unfold Z.modulo in Hr.
    destruct (Z.div_eucl m' (Zpos my)) as [q r].
    pose proof (binary_round_aux_of_sign (xorb sx sy) q
                  (Z.min (fexp prec emax (Zpos (digits2_pos mx) + ex - (Zpos (digits2_pos my) + ey)))
                         (ex - ey))
                  (new_location (Zpos my) r) ltac:(nia)) as H.
    simpl Zdigits2.
    split; [intros E; rewrite E in H; contradiction|intros [[? ?] _]; discriminate].
Qed.

Lemma is_nan_spec (x : float) :
  PrimFloat.is_nan x = match Prim2SF x with S754_nan => true | _ => false end.
Proof.
  unfold PrimFloat.is_nan. rewrite FloatAxioms.eqb_spec. unfold SFeqb.
  destruct (Prim2SF x) as [s|s| |s m e]; try reflexivity.
  - destruct s; reflexivity.
  - simpl. rewrite Pos.compare_cont_refl, Z.compare_refl. destruct s; reflexivity.
Qed.

Lemma is_zero_spec (x : float) :
  PrimFloat.is_zero x = match Prim2SF x with S754_zero _ => true | _ => false end.
Proof.
  unfold PrimFloat.is_zero. rewrite FloatAxioms.eqb_spec. unfold SFeqb.
  change (Prim2SF zero) with (S754_zero false).
  destruct (Prim2SF x) as [s|s| |s m e]; try reflexivity; destruct s; reflexivity.
Qed.

Lemma is_finite_spec (x : float) :
  PrimFloat.is_finite x =
  match Prim2SF x with S754_zero _ | S754_finite _ _ _ => true | _ => false end.
Proof.
  unfold PrimFloat.is_finite, PrimFloat.is_infinity.
  rewrite is_nan_spec, FloatAxioms.eqb_spec, abs_spec. unfold SFeqb.
  change (Prim2SF infinity) with (S754_infinity false).
  destruct (Prim2SF x) as [s|s| |s m e]; reflexivity.
Qed.

(** [v / n] for a finite [v] and an [n] that is not NaN is NaN exactly when
    both are zeros. *)
Lemma div_is_nan (v n : float) :
  PrimFloat.is_finite v = true -> PrimFloat.is_nan n = false ->
  PrimFloat.is_nan (v / n) = PrimFloat.is_zero v && PrimFloat.is_zero n.
Proof.
  intros Fv Nn. rewrite is_finite_spec in Fv.
  pose proof (SFdiv_nan (Prim2SF v) (Prim2SF n)) as H.
  rewrite (is_nan_spec (v / n)), !is_zero_spec, div_spec.
  rewrite is_nan_spec in Nn. unfold SF64div.
  destruct (SFdiv prec emax (Prim2SF v) (Prim2SF n)) eqn:E;
    destruct (Prim2SF v) as [sv|sv| |sv mv ev]; try discriminate;
    destruct (Prim2SF n) as [sn|sn| |sn mn en]; try discriminate;
    try reflexivity; simpl in *;
    try (destruct H as [H _]; [exact I|discriminate|]; 
         destruct (H eq_refl) as [[? ?] [? ?]]; discriminate);
    try (destruct H as [_ H]; [exact I|discriminate|];
         discriminate H; split; eauto).
Qed.

End NaNFree.

Section ProductRounding.
Import Binary64.




End ProductRounding.

(** ** Strings *)

Section StringFacts.
Import JS.

Lemma len_nonneg {A} (s : list A) : 0 <= len s.
Proof. unfold len. lia. Qed.

Lemma trimStart_suffix (s : jsstring) : exists w, s = w ++ trimStart s.
Proof.
  induction s as [|x r [w Hw]]; simpl.
  - exists []. reflexivity.
  - destruct (is_space x).
    + exists (x :: w). simpl. congruence.
    + exists []. reflexivity.
Qed.

Lemma trimStart_head (s : jsstring) c r : trimStart s = c :: r -> is_space c = false.
Proof.
  induction s as [|x t IH]; simpl; [discriminate|].
  destruct (is_space x) eqn:E; [exact IH|].
  intros [= <- _]. exact E.
Qed.

Lemma trimEnd_prefix (s : jsstring) : exists w, s = trimEnd s ++ w.
Proof.
  unfold trimEnd. destruct (trimStart_suffix (rev s)) as [w Hw].
  exists (rev w). rewrite <- rev_app_distr, <- Hw, rev_involutive. reflexivity.
Qed.

Lemma trimEnd_last (s : jsstring) c r : trimEnd s = r ++ [c] -> is_space c = false.
Proof.
  unfold trimEnd. intros H.
  apply (f_equal (@rev N)) in H. rewrite rev_involutive, rev_app_distr in H.
  simpl in H. exact (trimStart_head _ _ _ H).
Qed.

Lemma trim_trimmed (s : jsstring) : trimmed (trim s).
Proof.
  unfold trimmed, trim. split; intros c r H.
  - destruct (trimEnd_prefix (trimStart s)) as [w Hw].
    rewrite H in Hw. simpl in Hw. exact (trimStart_head _ _ _ Hw).
  - exact (trimEnd_last _ _ _ H).
Qed.

Lemma trimStart_id (s : jsstring) :
  Forall (fun c => is_space c = false) s -> trimStart s = s.
Proof. destruct 1 as [|x r Hx _]; simpl; [reflexivity|]. rewrite Hx. reflexivity. Qed.

Lemma trim_id (s : jsstring) :
  Forall (fun c => is_space c = false) s -> trim s = s.
Proof.
  intros H. unfold trim, trimEnd. rewrite (trimStart_id s H).
  rewrite trimStart_id, rev_involutive; [reflexivity|].
  apply Forall_rev. exact H.
Qed.

Lemma trim_length (s : jsstring) : (length (trim s) <= length s)%nat.
Proof.
  unfold trim.
  destruct (trimEnd_prefix (trimStart s)) as [w Hw].
  destruct (trimStart_suffix s) as [u Hu].
  rewrite Hu at 2. rewrite Hw at 2. rewrite !length_app. lia.
Qed.

Lemma last_occ_none c (s : jsstring) i :
  Forall (fun x => x <> c) s -> last_occ c s i = -1.
Proof.
  intros H. revert i. induction H as [|x r Hx _ IH]; intros i; simpl; [reflexivity|].
  rewrite IH. simpl. apply N.eqb_neq in Hx. rewrite Hx. reflexivity.
Qed.

Lemma lastIndexOf_none c (s : jsstring) position :
  Forall (fun x => x <> c) s -> lastIndexOf c s position = -1.
Proof.
  intros H. unfold lastIndexOf. apply last_occ_none.
  apply Forall_take. exact H.
Qed.

Lemma last_occ_bound c (s : jsstring) i :
  last_occ c s i = -1 \/ i <= last_occ c s i < i + len s.
Proof.
  revert i. induction s as [|x r IH]; intros i; simpl; [left; reflexivity|].
  unfold len in *. cbn [length]. rewrite Nat2Z.inj_succ.
  destruct (IH (i + 1)) as [E|B].
  - rewrite E. simpl. destruct (x =? c)%N; [right; lia|left; reflexivity].
  - destruct (0 <=? last_occ c r (i + 1)) eqn:E0; [right; lia|].
    destruct (x =? c)%N; [right; lia|left; reflexivity].
Qed.

(** [lastIndexOf] answers [-1] or an index of the string not beyond the
    clamped position. *)
Lemma lastIndexOf_le c (s : jsstring) position :
  lastIndexOf c s position <= Z.max 0 (Z.min position (len s - 1)).
Proof.
  unfold lastIndexOf.
  set (start := Z.max 0 (Z.min position (len s - 1))).
  destruct (last_occ_bound c (take (Z.to_nat (start + 1)) s) 0) as [E|B].
  - rewrite E. lia.
  - unfold len in B. rewrite length_take in B. lia.
Qed.

Lemma slice_all {A} (s : list A) (n : Z) : len s <= n -> slice s 0 n = s.
Proof.
  intros H. unfold slice, rel_index. simpl.
  pose proof (len_nonneg s).
  destruct (n <? 0) eqn:E; [lia|].
  rewrite Z.min_r by lia. rewrite Z.min_l by lia. simpl.
  rewrite Z.sub_0_r. unfold len. rewrite Nat2Z.id. apply firstn_all.
Qed.

Lemma slice_length {A} (s : list A) (a b : Z) :
  0 <= a <= b -> b <= len s -> len (slice s a b) = b - a.
Proof.
  intros Ha Hb. unfold slice, rel_index.
  destruct (a <? 0) eqn:Ea; [lia|]. destruct (b <? 0) eqn:Eb; [lia|].
  rewrite !Z.min_l by lia. unfold len in *.
  rewrite length_take, length_drop. lia.
Qed.

End StringFacts.

(** ** The chunker *)

Section ChunkerFacts.
Import JS Chunker.

Lemma chunk_loop_eq fuel (text : jsstring) chunkSize overlap start chunks :
  chunk_loop fuel text chunkSize overlap start chunks =
  if start <? len text then
    match fuel with
    | O => None
    | S fuel =>
      let end_ := window_end text chunkSize start in
      let chunk := trim (slice text start end_) in
      chunk_loop fuel text chunkSize overlap (end_ - overlap)
                 (if 0 <? len chunk then chunks ++ [chunk] else chunks)
    end
  else Some chunks.
Proof. destruct fuel; reflexivity. Qed.

Lemma chunk_loop_done fuel (text : jsstring) chunkSize overlap start chunks :
  len text <= start -> chunk_loop fuel text chunkSize overlap start chunks = Some chunks.
Proof.
  intros H. rewrite chunk_loop_eq.
  destruct (start <? len text) eqn:E; [lia|reflexivity].
Qed.

Lemma chunk_loop_step fuel (text : jsstring) chunkSize overlap start chunks :
  start < len text ->
  chunk_loop (S fuel) text chunkSize overlap start chunks =
  chunk_loop fuel text chunkSize overlap (window_end text chunkSize start - overlap)
    (chunks ++ filter (fun c => c <> []) [trim (slice text start (window_end text chunkSize start))]).
Proof.
  intros H. rewrite chunk_loop_eq.
  destruct (start <? len text) eqn:E; [|lia]. cbv zeta.
  f_equal.
  destruct (trim (slice text start (window_end text chunkSize start))) as [|c r] eqn:Et.
  - simpl. rewrite app_nil_r. reflexivity.
  - reflexivity.
Qed.

(** Where a window ends: at [start + chunkSize], or just after a terminator
    that lies beyond the middle of the window and inside the text. *)
Lemma window_end_cases (text : jsstring) chunkSize start :
  window_end text chunkSize start = start + chunkSize \/
  (start + chunkSize < len text /\
   2 * start + chunkSize + 2 < 2 * window_end text chunkSize start /\
   window_end text chunkSize start <= Z.max 0 (Z.min (start + chunkSize) (len text - 1)) + 1).
Proof.
  unfold window_end.
  destruct (start + chunkSize <? len text) eqn:E; [|left; reflexivity].
  destruct (2 * start + chunkSize <? 2 * _) eqn:E2; [|left; reflexivity].
  right. split; [lia|]. split; [lia|].
  pose proof (lastIndexOf_le period text (start + chunkSize)).
  pose proof (lastIndexOf_le newline text (start + chunkSize)). lia.
Qed.

Lemma window_end_no_break (text : jsstring) chunkSize start :
  Forall (fun c => c <> period /\ c <> newline) text ->
  0 <= 2 * start + chunkSize + 2 ->
  window_end text chunkSize start = start + chunkSize.
Proof.
  intros H Hs. unfold window_end.
  destruct (start + chunkSize <? len text); [|reflexivity].
  rewrite !lastIndexOf_none; [|eapply Forall_impl; [exact H|]; simpl; tauto..].
  change (Z.max (-1) (-1)) with (-1).
  destruct (2 * start + chunkSize <? 2 * -1) eqn:E; [lia|reflexivity].
Qed.

(** With [overlap < chunkSize] and [overlap] at most half of [chunkSize],
    every iteration moves [start] forward. *)
Lemma window_end_advances (text : jsstring) chunkSize overlap start :
  overlap < chunkSize -> 2 * overlap <= chunkSize ->
  start < window_end text chunkSize start - overlap.
Proof.
  intros H1 H2. destruct (window_end_cases text chunkSize start) as [E|(_ & B & _)]; lia.
Qed.

Lemma chunk_loop_terminates (text : jsstring) chunkSize overlap :
  overlap < chunkSize -> 2 * overlap <= chunkSize ->
  forall fuel start chunks,
    len text - start <= Z.of_nat fuel ->
    exists result, chunk_loop fuel text chunkSize overlap start chunks = Some result.
Proof.
  intros H1 H2. induction fuel as [|fuel IH]; intros start chunks Hf.
  - exists chunks. apply chunk_loop_done. lia.
  - destruct (Z.lt_ge_cases start (len text)) as [Hlt|Hge].
    + rewrite chunk_loop_step by exact Hlt. apply IH.
      pose proof (window_end_advances text chunkSize overlap start H1 H2). lia.
    + exists chunks. apply chunk_loop_done. exact Hge.
Qed.

(** More fuel does not change a result that was reached. *)
Lemma chunk_loop_fuel_mono (text : jsstring) chunkSize overlap result :
  forall fuel fuel' start chunks,
    (fuel <= fuel')%nat ->
    chunk_loop fuel text chunkSize overlap start chunks = Some result ->
    chunk_loop fuel' text chunkSize overlap start chunks = Some result.
Proof.
  induction fuel as [|fuel IH]; intros fuel' start chunks Hle H.
  - rewrite chunk_loop_eq in H. rewrite chunk_loop_eq.
    destruct (start <? len text); [discriminate|exact H].
  - destruct fuel' as [|fuel']; [lia|].
    destruct (Z.lt_ge_cases start (len text)) as [Hlt|Hge].
    + rewrite chunk_loop_step in H |- * by exact Hlt. apply IH; [lia|exact H].
    + rewrite chunk_loop_done in H |- * by exact Hge. exact H.
Qed.

(** Whatever the loop adds to [chunks] is a trimmed, non-empty string. *)
Lemma chunk_loop_chunks (text : jsstring) chunkSize overlap result :
  forall fuel start chunks,
    Forall (fun c => c <> [] /\ trimmed c) chunks ->
    chunk_loop fuel text chunkSize overlap start chunks = Some result ->
    Forall (fun c => c <> [] /\ trimmed c) result.
Proof.
  induction fuel as [|fuel IH]; intros start chunks Hc H.
  - rewrite chunk_loop_eq in H.
    destruct (start <? len text); [discriminate|]. injection H as <-. exact Hc.
  - destruct (Z.lt_ge_cases start (len text)) as [Hlt|Hge].
    + rewrite chunk_loop_step in H by exact Hlt. eapply IH; [|exact H].
      apply Forall_app. split; [exact Hc|].
      apply list.Forall_forall. intros c Hin.
      apply list_elem_of_filter in Hin. destruct Hin as [Hne Hin].
      apply list_elem_of_singleton in Hin. subst c.
      split; [exact Hne|apply trim_trimmed].
    + rewrite chunk_loop_done in H by exact Hge. injection H as <-. exact Hc.
Qed.

(** With [overlap >= chunkSize] the loop never leaves a non-empty text. *)
Lemma chunk_loop_diverges (text : jsstring) chunkSize overlap :
  1 <= len text -> 1 <= overlap -> chunkSize <= overlap ->
  forall fuel start chunks,
    start < len text -> chunk_loop fuel text chunkSize overlap start chunks = None.
Proof.
  intros Hlen H1 H2. induction fuel as [|fuel IH]; intros start chunks Hlt.
  - rewrite chunk_loop_eq. destruct (start <? len text) eqn:E; [reflexivity|lia].
  - rewrite chunk_loop_step by exact Hlt. apply IH.
    destruct (window_end_cases text chunkSize start) as [E|(_ & _ & B)]; lia.
Qed.

End ChunkerFacts.

Section ChunkerClaims.
Import JS Chunker.

(** With the progress condition the loop ends within as many iterations as
    the text has code units. *)
Lemma chunkText_fuel_enough (text : jsstring) (chunkSize overlap : Z) :
  overlap < chunkSize -> 2 * overlap <= chunkSize ->
  exists chunks, forall fuel, (length text <= fuel)%nat ->
    chunkText_fuel fuel text chunkSize overlap = Some chunks.
Proof.
  intros H1 H2. unfold chunkText_fuel.
  destruct (chunk_loop_terminates text chunkSize overlap H1 H2 (length text) 0 [])
    as [chunks Hc]; [unfold len; lia|].
  exists chunks. intros fuel Hf.
  exact (chunk_loop_fuel_mono text chunkSize overlap chunks _ _ 0 [] Hf Hc).
Qed.

(** C2, as the code has it. [chunkText] has no guard on [overlap]:
    (1) when [overlap < chunkSize] and [overlap] is at most half of
    [chunkSize] (the call site passes 1000 and 200) the loop ends for every
    text, within as many iterations as the text has code units;
    (2) when [overlap >= chunkSize] and [overlap >= 1] the loop never ends
    on a non-empty text;
    (3) a text with a non-blank character and no longer than
    [chunkSize - overlap] gives exactly one chunk, its trimmed content. *)
Theorem chunkText_termination (text : jsstring) (chunkSize overlap : Z) :
  (overlap < chunkSize -> 2 * overlap <= chunkSize ->
   exists chunks, forall fuel, (length text <= fuel)%nat ->
     chunkText_fuel fuel text chunkSize overlap = Some chunks) /\
  (text <> [] -> 1 <= overlap -> chunkSize <= overlap ->
   forall fuel, chunkText_fuel fuel text chunkSize overlap = None) /\
  (0 <= overlap -> len text <= chunkSize - overlap -> trim text <> [] ->
   forall fuel, (1 <= fuel)%nat ->
     chunkText_fuel fuel text chunkSize overlap = Some [trim text]).
Proof.
  split; [apply chunkText_fuel_enough|]. unfold chunkText_fuel. split.
  - intros Hne H1 H2 fuel.
    assert (1 <= len text) by (destruct text; [congruence|unfold len; simpl; lia]).
    apply chunk_loop_diverges; lia.
  - intros H0 Hlen Hne [|fuel] Hf; [lia|].
    assert (1 <= len text).
    { destruct text; [exfalso; apply Hne; reflexivity|unfold len; simpl; lia]. }
    rewrite chunk_loop_step by lia.
    assert (E : window_end text chunkSize 0 = chunkSize).
    { unfold window_end. rewrite !Z.add_0_l.
      destruct (chunkSize <? len text) eqn:E; [lia|reflexivity]. }
    rewrite E, slice_all by lia.
    rewrite chunk_loop_done by lia.
    rewrite filter_cons, filter_nil, decide_True by exact Hne. reflexivity.
Qed.

(** C2 at concrete inputs: the defaults on a three-letter text, and
    [chunkSize = overlap = 1] on a one-letter text. *)
Lemma chunkText_termination_witness :
  (exists chunks, forall fuel, (3 <= fuel)%nat ->
     chunkText_fuel fuel (lit "abc") 1000 200 = Some chunks) /\
  (forall fuel, chunkText_fuel fuel (lit "a") 1 1 = None) /\
  (forall fuel, (1 <= fuel)%nat ->
     chunkText_fuel fuel (lit " abc ") 1000 200 = Some [lit "abc"]).
Proof.
  destruct (chunkText_termination (lit "abc") 1000 200) as (T & _ & _).
  destruct (chunkText_termination (lit "a") 1 1) as (_ & D & _).
  destruct (chunkText_termination (lit " abc ") 1000 200) as (_ & _ & O).
  split; [apply T; lia|split].
  - apply D; [discriminate|lia|lia].
  - apply O; [lia|vm_compute; discriminate|discriminate].
Defined.

(** C2 fails as stated: a 900-unit text is shorter than [chunkSize = 1000]
    and yields two chunks (the windows [0, 900) and [800, 900)), and with
    [overlap = chunkSize] the call does not return. *)
Lemma chunkText_short_text_two_chunks :
  chunkText_fuel 900 (repeat 97%N 900) 1000 200
    = Some [repeat 97%N 900; repeat 97%N 100] /\
  (forall fuel, chunkText_fuel fuel (lit "a") 1 1 = None).
Proof.
  split; [vm_compute; reflexivity|].
  intros fuel. unfold chunkText_fuel.
  apply chunk_loop_diverges; vm_compute; congruence.
Qed.

Lemma filter_all {A} (P : A -> Prop) `{forall x, Decision (P x)} (l : list A) :
  Forall P l -> filter P l = l.
Proof.
  induction 1 as [|x r Hx _ IH]; [reflexivity|].
  rewrite filter_cons, decide_True by exact Hx. f_equal. exact IH.
Qed.

(** The four windows of a 2500-unit text that has no sentence terminator. *)
Lemma chunk_loop_2500_no_break (text : jsstring) fuel :
  length text = 2500%nat ->
  Forall (fun c => c <> period /\ c <> newline) text ->
  (4 <= fuel)%nat ->
  chunk_loop fuel text 1000 200 0 [] =
  Some (filter (fun c => c <> [])
          (List.map trim [slice text 0 1000; slice text 800 1800;
                          slice text 1600 2500; slice text 2400 2500])).
Proof.
  intros Hlen Hnb Hf.
  do 4 (destruct fuel as [|fuel]; [lia|]). clear Hf.
  assert (L : len text = 2500) by (unfold len; rewrite Hlen; reflexivity).
  assert (S3 : slice text 1600 2600 = slice text 1600 2500).
  { unfold slice, rel_index. rewrite L. reflexivity. }
  assert (S4 : slice text 2400 3400 = slice text 2400 2500).
  { unfold slice, rel_index. rewrite L. reflexivity. }
  rewrite chunk_loop_step, window_end_no_break by (try exact Hnb; lia).
  change (0 + 1000 - 200) with 800.
  rewrite chunk_loop_step, window_end_no_break by (try exact Hnb; lia).
  change (800 + 1000 - 200) with 1600. change (800 + 1000) with 1800.
  rewrite chunk_loop_step, window_end_no_break by (try exact Hnb; lia).
  change (1600 + 1000 - 200) with 2400. change (1600 + 1000) with 2600.
  rewrite chunk_loop_step, window_end_no_break by (try exact Hnb; lia).
  change (2400 + 1000 - 200) with 3200. change (2400 + 1000) with 3400.
  rewrite chunk_loop_done by lia.
  rewrite S3, S4. simpl app.
  rewrite <- !filter_app. reflexivity.
Qed.

(** C9, as the code has it. For every 2500-unit text [chunkText(text, 1000,
    200)] returns, and every chunk is non-empty and trimmed. The number of
    chunks is not always 3: without a full stop or a line feed in the text
    the chunks are the non-blank ones of the four windows [0, 1000),
    [800, 1800), [1600, 2500) and [2400, 2500), so a text that has no white
    space either gives exactly these four. *)
Theorem chunkText_2500 (text : jsstring) :
  length text = 2500%nat ->
  exists chunks,
    (forall fuel, (2500 <= fuel)%nat -> chunkText_fuel fuel text 1000 200 = Some chunks) /\
    Forall (fun c => c <> [] /\ trimmed c) chunks /\
    (Forall (fun c => c <> period /\ c <> newline) text ->
     chunks = filter (fun c => c <> [])
                (List.map trim [slice text 0 1000; slice text 800 1800;
                                slice text 1600 2500; slice text 2400 2500])) /\
    (Forall (fun c => c <> period /\ c <> newline) text ->
     Forall (fun c => is_space c = false) text ->
     chunks = [slice text 0 1000; slice text 800 1800;
               slice text 1600 2500; slice text 2400 2500]).
Proof.
  intros Hlen.
  destruct (chunkText_fuel_enough text 1000 200) as [chunks Hc]; [lia..|].
  pose proof (Hc (length text) (Nat.le_refl _)) as H1.
  unfold chunkText_fuel in H1.
  assert (Hw : Forall (fun c => c <> period /\ c <> newline) text ->
     chunks = filter (fun c => c <> [])
                (List.map trim [slice text 0 1000; slice text 800 1800;
                                slice text 1600 2500; slice text 2400 2500])).
  { intros Hnb.
    rewrite (chunk_loop_2500_no_break text (length text) Hlen Hnb) in H1 by lia.
    injection H1 as <-. reflexivity. }
  exists chunks. split; [|split; [|split; [exact Hw|]]].
  - intros fuel Hf. apply Hc. lia.
  - apply (chunk_loop_chunks text 1000 200 chunks (length text) 0 []); [constructor|exact H1].
  - intros Hnb Hns. rewrite (Hw Hnb).
    assert (L : len text = 2500) by (unfold len; rewrite Hlen; reflexivity).
    assert (Hs : forall a b, Forall (fun c => is_space c = false) (slice text a b)).
    { intros a b. unfold slice. apply Forall_take, Forall_drop. exact Hns. }
    assert (Hn : forall a b, 0 <= a < b -> b <= 2500 -> slice text a b <> []).
    { intros a b Ha Hb E. apply (f_equal len) in E.
      rewrite slice_length in E by lia. unfold len in E. cbn [length] in E. lia. }
    cbn [List.map]. rewrite !trim_id by apply Hs.
    apply filter_all.
    repeat (constructor; [apply Hn; lia|]). constructor.
Qed.

(** C9 on the text made of 2500 letters [a]. *)
Lemma chunkText_2500_witness :
  exists chunks,
    (forall fuel, (2500 <= fuel)%nat ->
       chunkText_fuel fuel (repeat 97%N 2500) 1000 200 = Some chunks) /\
    Forall (fun c => c <> [] /\ trimmed c) chunks.
Proof.
  destruct (chunkText_2500 (repeat 97%N 2500)) as (chunks & H1 & H2 & _).
  - apply repeat_length.
  - exists chunks. split; assumption.
Defined.

(** C9 fails as stated: 2500 letters [a] give four chunks, of 1000, 1000,
    900 and 100 code units. *)
Lemma chunkText_2500_four_chunks :
  chunkText_fuel 2500 (repeat 97%N 2500) 1000 200
    = Some [repeat 97%N 1000; repeat 97%N 1000; repeat 97%N 900; repeat 97%N 100].
Proof. vm_compute. reflexivity. Qed.

End ChunkerClaims.

(** ** The fallback generator *)

Section AIServiceClaims.
Import JS AIService Binary64.

(** C1 on the code. A message whose lower-cased, trimmed form matches none
    of the four canned handlers does not get the generic reply: the default
    branch of [getHelpfulResponse] reads the unbound name [contexts], so
    [fallbackChatResponse] throws a ReferenceError, with or without
    passages. *)
Theorem fallbackChatResponse_unmatched_throws
    (toLowerCase : jsstring -> jsstring) (message : jsstring) (contexts : list context) :
  is_sine (trim (toLowerCase message)) = false ->
  is_arrays (trim (toLowerCase message)) = false ->
  is_greeting (trim (toLowerCase message)) = false ->
  is_help (trim (toLowerCase message)) = false ->
  fallbackChatResponse toLowerCase message contexts = Throw (ReferenceError "contexts").
Proof.
  intros H1 H2 H3 H4. unfold fallbackChatResponse, getHelpfulResponse.
  rewrite H1, H2, H3, H4.
  destruct (0 <? length contexts)%nat; reflexivity.
Qed.

(** C1 at the message "What is photosynthesis?", without passages. *)
Lemma fallbackChatResponse_unmatched_throws_witness :
  fallbackChatResponse ascii_toLowerCase (lit "What is photosynthesis?") []
    = Throw (ReferenceError "contexts").
Proof.
  apply (fallbackChatResponse_unmatched_throws ascii_toLowerCase
           (lit "What is photosynthesis?") []); vm_compute; reflexivity.
Defined.



Lemma range_length (lo hi : Z) : lo <= hi + 1 -> len (range lo hi) = hi - lo + 1.
Proof. intros H. unfold len, range. rewrite length_seqZ. lia. Qed.






End AIServiceClaims.

Section EmbeddingClaims.
Import JS AIService.

Variable Math_sin : float -> float.

Lemma raw_embedding_length (hash : Z) : length (raw_embedding Math_sin hash) = 768%nat.
Proof. unfold raw_embedding. rewrite length_map, length_seqZ. reflexivity. Qed.

Lemma zero_times_index :
  forallb (fun i => PrimFloat.Leibniz.eqb (of_Z 0 * of_Z (i + 1))%float 0%float) (seqZ 0 768)
  = true.
Proof. vm_compute. reflexivity. Qed.

(** With hash 0 and [Math.sin(+0) = +0] every component is [+0] before
    normalisation. *)
Lemma raw_embedding_zero :
  Math_sin 0%float = 0%float -> raw_embedding Math_sin 0 = repeat 0%float 768.
Proof.
  intros Hsin. unfold raw_embedding.
  transitivity (List.map (fun _ : Z => 0%float) (seqZ 0 768)).
  - apply map_ext_in. intros i Hi.
    pose proof zero_times_index as H. rewrite forallb_forall in H.
    apply H in Hi. apply FloatAxioms.Leibniz.eqb_spec in Hi.
    rewrite Hi, Hsin. reflexivity.
  - vm_compute. reflexivity.
Qed.

End EmbeddingClaims.

Section EmbeddingClaim.
Import JS AIService Binary64.

(** The sum of squares of numbers that are not NaN is not NaN and not
    negative. *)
Lemma sum_squares_of_sign (l : list float) :
  forallb (fun v => negb (PrimFloat.is_nan v)) l = true ->
  forall acc : float,
    of_sign false (Prim2SF acc) ->
    of_sign false (Prim2SF (fold_left (fun sum val => (sum + val * val)%float) l acc)).
Proof.
  induction l as [|v l IH]; intros Hl acc Hacc; [exact Hacc|].
  simpl in Hl. apply andb_prop in Hl as [Hv Hl]. apply negb_true_iff in Hv.
  simpl fold_left. apply IH; [exact Hl|].
  rewrite add_spec, mul_spec. apply SFadd_of_sign; [exact Hacc|].
  apply SFmul_square, is_nan_not_nan, Hv.
Qed.

Lemma norm_of_not_nan (l : list float) :
  forallb (fun v => negb (PrimFloat.is_nan v)) l = true -> PrimFloat.is_nan (norm_of l) = false.
Proof.
  intros Hl. unfold norm_of. rewrite is_nan_spec, sqrt_spec.
  pose proof (SFsqrt_of_sign _ (sum_squares_of_sign l Hl 0%float eq_refl)) as H.
  unfold SF64sqrt. destruct (SFsqrt prec emax _); try reflexivity. contradiction.
Qed.

Lemma finite_not_nan (l : list float) :
  forallb PrimFloat.is_finite l = true ->
  forallb (fun v => negb (PrimFloat.is_nan v)) l = true.
Proof.
  rewrite !forallb_forall. intros H v Hv. specialize (H v Hv).
  unfold PrimFloat.is_finite in H. apply negb_true_iff, orb_false_elim in H as [H _].
  rewrite H. reflexivity.
Qed.

Lemma lookup_map {A B : Type} (f : A -> B) (l : list A) :
  forall i : nat, List.map f l !! i = option_map f (l !! i).
Proof. induction l as [|x l IH]; intros [|i]; simpl; try reflexivity. apply IH. Qed.

(** C3, as the code has it. [fallbackEmbedding] has no zero-norm guard. It
    returns 768 components, the one at index [i] being the synthesized
    [Math.sin(hash * (i + 1)) * 0.1] divided by the norm. When the
    synthesized components are finite, the norm is not NaN and a returned
    component is NaN exactly when the norm and its synthesized component are
    both zero, so no component is NaN when the norm is not zero. For a text
    whose hash is 0 (the empty text is one) and a [Math.sin] with
    [Math.sin(+0) = +0], the norm is 0 and every component is [0 / 0], that
    is NaN. *)
Theorem fallbackEmbedding_zero_norm (Math_sin : float -> float) (text : jsstring) :
  length (fallbackEmbedding Math_sin text) = 768%nat /\
  (forall i : nat, (i < 768)%nat ->
     fallbackEmbedding Math_sin text !! i =
     Some (Math_sin (of_Z (hash_of text) * of_Z (Z.of_nat i + 1)) * tenth
           / norm_of (raw_embedding Math_sin (hash_of text)))%float) /\
  (forallb PrimFloat.is_finite (raw_embedding Math_sin (hash_of text)) = true ->
     PrimFloat.is_nan (norm_of (raw_embedding Math_sin (hash_of text))) = false /\
     List.map PrimFloat.is_nan (fallbackEmbedding Math_sin text) =
       List.map (fun v => PrimFloat.is_zero v
                          && PrimFloat.is_zero (norm_of (raw_embedding Math_sin (hash_of text))))
                (raw_embedding Math_sin (hash_of text)) /\
     (PrimFloat.is_zero (norm_of (raw_embedding Math_sin (hash_of text))) = false ->
      forallb (fun v => negb (PrimFloat.is_nan v)) (fallbackEmbedding Math_sin text) = true)) /\
  hash_of [] = 0 /\
  (Math_sin 0%float = 0%float -> hash_of text = 0 ->
   fallbackEmbedding Math_sin text = repeat nan 768).
Proof.
  split; [|split; [|split; [|split]]].
  - unfold fallbackEmbedding. rewrite length_map. apply raw_embedding_length.
  - intros i Hi. unfold fallbackEmbedding. rewrite lookup_map.
    unfold raw_embedding at 2. rewrite lookup_map, (lookup_seqZ_lt 0 768 i) by lia.
    simpl option_map. rewrite Z.add_0_l. reflexivity.
  - intros Hfin.
    set (raw := raw_embedding Math_sin (hash_of text)) in *.
    pose proof (norm_of_not_nan raw (finite_not_nan raw Hfin)) as Hn.
    assert (E : List.map PrimFloat.is_nan (fallbackEmbedding Math_sin text) =
                List.map (fun v => PrimFloat.is_zero v && PrimFloat.is_zero (norm_of raw)) raw).
    { unfold fallbackEmbedding. fold raw. rewrite List.map_map.
      apply map_ext_in. intros v Hv. apply div_is_nan; [|exact Hn].
      rewrite forallb_forall in Hfin. apply Hfin, Hv. }
    split; [exact Hn|]. split; [exact E|].
    intros Hz. apply forallb_forall. intros r Hr.
    unfold fallbackEmbedding in Hr. fold raw in Hr.
    apply in_map_iff in Hr as (v & <- & Hv).
    rewrite forallb_forall in Hfin.
    rewrite (div_is_nan v (norm_of raw) (Hfin v Hv) Hn), Hz, andb_false_r. reflexivity.
  - reflexivity.
  - intros Hsin Hh. unfold fallbackEmbedding. rewrite Hh, (raw_embedding_zero Math_sin Hsin).
    vm_compute. reflexivity.
Qed.

(** C3 with the cubic polynomial for [Math.sin]: the empty text gives 768
    NaN, the text "a" (hash 97, norm not zero) gives none. *)
Lemma fallbackEmbedding_zero_norm_witness :
  fallbackEmbedding sin_cubic [] = repeat nan 768 /\
  forallb (fun v => negb (PrimFloat.is_nan v)) (fallbackEmbedding sin_cubic (lit "a")) = true.
Proof.
  split.
  - destruct (fallbackEmbedding_zero_norm sin_cubic []) as (_ & _ & _ & _ & H).
    apply H; vm_compute; reflexivity.
  - destruct (fallbackEmbedding_zero_norm sin_cubic (lit "a")) as (_ & _ & H & _).
    destruct H as (_ & _ & H); [vm_compute; reflexivity|].
    apply H. vm_compute. reflexivity.
Defined.

(** C3 fails as stated: on the empty text, whatever [Math.sin] computes
    elsewhere, all 768 components are NaN. *)
Lemma fallbackEmbedding_empty_text_nan :
  exists text : jsstring,
    text = [] /\
    forall Math_sin : float -> float,
      Math_sin 0%float = 0%float ->
      fallbackEmbedding Math_sin text = repeat nan 768 /\
      Forall (fun v => PrimFloat.is_nan v = true) (fallbackEmbedding Math_sin text).
Proof.
  exists []. split; [reflexivity|]. intros Math_sin Hsin.
  assert (E : fallbackEmbedding Math_sin [] = repeat nan 768).
  { unfold fallbackEmbedding. change (hash_of []) with 0.
    rewrite (raw_embedding_zero Math_sin Hsin). vm_compute. reflexivity. }
  split; [exact E|]. rewrite E.
  apply list.Forall_forall. intros v Hv.
  apply list_elem_of_In, repeat_spec in Hv. subst v. reflexivity.
Qed.

End EmbeddingClaim.

(** ** The vector store *)

Section VectorStoreFacts.
Import JS VectorStore.

Lemma cosine_sums_folds (a b : list float) :
  length a = length b ->
  forall d na nb,
    cosine_sums a b d na nb =
    (fold_left (fun sum p => (sum + p.1 * p.2)%float) (combine a b) d,
     fold_left (fun sum p => (sum + p.1 * p.2)%float) (combine a a) na,
     fold_left (fun sum p => (sum + p.1 * p.2)%float) (combine b b) nb).
Proof.
  revert b. induction a as [|x a IH]; intros [|y b] Hlen d na nb;
    try discriminate; [reflexivity|].
  simpl. apply IH. simpl in Hlen. congruence.
Qed.

Lemma cosineSimilarity_mismatch (a b : list float) :
  length a <> length b -> cosineSimilarity a b = Throw dimension_mismatch.
Proof.
  intros H. unfold cosineSimilarity.
  apply Nat.eqb_neq in H. rewrite H. reflexivity.
Qed.

Lemma cosineSimilarity_match (a b : list float) :
  length a = length b ->
  cosineSimilarity a b = Ok (dot a b / (euclidean_norm a * euclidean_norm b))%float.
Proof.
  intros H. unfold cosineSimilarity.
  rewrite (proj2 (Nat.eqb_eq _ _) H). simpl negb. cbv iota.
  rewrite (cosine_sums_folds a b H). reflexivity.
Qed.

(** A failing similarity computation fails the whole [map]. *)
Lemma mapM_score_mismatch (q : list float) (l : list VectorRecord) :
  Exists (fun v => length (embedding v) <> length q) l ->
  mapM (score q) l = Throw dimension_mismatch.
Proof.
  induction l as [|v l IH]; intros H; [inversion H|].
  simpl. unfold score at 1.
  destruct (Nat.eq_dec (length q) (length (embedding v))) as [E|E].
  - rewrite (cosineSimilarity_match _ _ E). simpl.
    rewrite IH; [reflexivity|]. inversion H; subst; [congruence|assumption].
  - rewrite (cosineSimilarity_mismatch _ _ E). reflexivity.
Qed.

Lemma mapM_score_ok (q : list float) (l : list VectorRecord) :
  Forall (fun v => length (embedding v) = length q) l ->
  mapM (score q) l =
  Ok (List.map (fun v => (v, (dot q (embedding v)
                              / (euclidean_norm q * euclidean_norm (embedding v)))%float)) l).
Proof.
  induction 1 as [|v l Hv _ IH]; [reflexivity|].
  simpl. unfold score at 1.
  rewrite (cosineSimilarity_match _ _ (eq_sym Hv)). simpl. rewrite IH. reflexivity.
Qed.

(** What [map] returns pairs every candidate with a similarity, in order. *)
Lemma mapM_score_fst (q : list float) (l : list VectorRecord) scored :
  mapM (score q) l = Ok scored -> List.map fst scored = l.
Proof.
  revert scored. induction l as [|v l IH]; intros scored H; simpl in H.
  - injection H as <-. reflexivity.
  - unfold score at 1 in H.
    destruct (cosineSimilarity q (embedding v)) as [sim|e]; [|discriminate].
    simpl in H. destruct (mapM (score q) l) as [r|e]; [|discriminate].
    simpl in H. injection H as <-. simpl. f_equal. apply IH. reflexivity.
Qed.

Lemma insert_sorted_perm {A} (cmp : A -> A -> float) (x : A) (l : list A) :
  Permutation (insert_sorted cmp x l) (x :: l).
Proof.
  induction l as [|y l IH]; simpl; [reflexivity|].
  destruct (0 <? cmp x y)%float; [|reflexivity].
  rewrite IH. apply perm_swap.
Qed.

(** Sorting rearranges, it neither drops nor adds an element. *)
Lemma sort_perm {A} (cmp : A -> A -> float) (l : list A) : Permutation (sort cmp l) l.
Proof.
  induction l as [|x l IH]; simpl; [reflexivity|].
  rewrite insert_sorted_perm, IH. reflexivity.
Qed.

Lemma slice_subseteq {A} (l : list A) (a b : Z) : slice l a b ⊆ l.
Proof.
  unfold slice. intros x Hx.
  eapply subseteq_drop. eapply subseteq_take. exact Hx.
Qed.

Lemma rel_index_nonneg (n k : Z) : 0 <= k -> rel_index n k = Z.min k n.
Proof. intros H. unfold rel_index. destruct (k <? 0) eqn:E; [lia|reflexivity]. Qed.

Lemma slice_prefix {A} (l : list A) (k : Z) :
  0 <= k -> slice l 0 k = take (Z.to_nat k) l.
Proof.
  intros Hk. unfold slice. pose proof (len_nonneg l).
  rewrite !rel_index_nonneg by lia. rewrite (Z.min_l 0) by lia.
  rewrite Z.sub_0_r. change (drop (Z.to_nat 0) l) with l.
  destruct (Z.le_ge_cases k (len l)).
  - rewrite Z.min_l by lia. reflexivity.
  - rewrite Z.min_r by lia. unfold len in *.
    rewrite Nat2Z.id, !take_ge by lia. reflexivity.
Qed.

Lemma slice_prefix_length {A} (l : list A) (k : Z) :
  0 <= k -> len (slice l 0 k) = Z.min k (len l).
Proof.
  intros Hk. rewrite slice_prefix by exact Hk.
  unfold len. rewrite length_take. lia.
Qed.

(** Every record [findSimilar] returns is a candidate without its embedding. *)
Lemma findSimilar_from_candidates (s : store) q topK f rs :
  findSimilar s q topK f = Ok rs ->
  Forall (fun r => exists v sim, v ∈ candidates s f /\ r = strip (v, sim)) rs.
Proof.
  unfold findSimilar. intros H.
  destruct (mapM (score q) (candidates s f)) as [scored|e] eqn:E; [|discriminate].
  simpl in H. injection H as <-.
  apply Forall_map. apply list.Forall_forall. intros [v sim] Hin.
  exists v, sim. split; [|reflexivity].
  apply slice_subseteq in Hin. rewrite sort_perm in Hin.
  rewrite <- (mapM_score_fst q _ _ E).
  apply list_elem_of_fmap. exists (v, sim). split; [reflexivity|exact Hin].
Qed.

Lemma candidates_subseteq (s : store) f : candidates s f ⊆ vectors s.
Proof.
  unfold candidates. destruct f as [[|c d]|]; try reflexivity.
  intros v Hv. apply list_elem_of_filter in Hv. tauto.
Qed.

End VectorStoreFacts.

Section VectorStoreClaims.
Import JS VectorStore.

(** C6. [cosineSimilarity] fails with the dimension-mismatch error on vectors
    of different lengths, and on vectors of equal length it returns the dot
    product divided by the product of the Euclidean norms. *)
Theorem cosineSimilarity_spec (a b : list float) :
  (length a <> length b -> cosineSimilarity a b = Throw dimension_mismatch) /\
  (length a = length b ->
   cosineSimilarity a b = Ok (dot a b / (euclidean_norm a * euclidean_norm b))%float).
Proof. split; [apply cosineSimilarity_mismatch|apply cosineSimilarity_match]. Qed.

(** C6 on [1; 0] against [2] and against [1; 1]. *)
Lemma cosineSimilarity_spec_witness :
  cosineSimilarity [1; 0]%float [2]%float = Throw dimension_mismatch /\
  cosineSimilarity [1; 0]%float [1; 1]%float
    = Ok (dot [1; 0] [1; 1] / (euclidean_norm [1; 0] * euclidean_norm [1; 1]))%float.
Proof.
  split.
  - apply (cosineSimilarity_spec [1; 0]%float [2]%float). simpl. lia.
  - apply (cosineSimilarity_spec [1; 0]%float [1; 1]%float). reflexivity.
Defined.

(** C5, as the code has it. A candidate whose embedding is not as long as the
    query vector is not skipped: it makes [findSimilar] throw the
    dimension-mismatch error, and the query returns no result at all. *)
Theorem findSimilar_mismatch_aborts (s : store) (q : list float) (topK : Z)
    (filterDocId : option jsstring) :
  Exists (fun v => length (embedding v) <> length q) (candidates s filterDocId) ->
  findSimilar s q topK filterDocId = Throw dimension_mismatch.
Proof.
  intros H. unfold findSimilar. rewrite (mapM_score_mismatch q _ H). reflexivity.
Qed.

(** C5 on the sample library with one malformed record added. *)
Lemma findSimilar_mismatch_aborts_witness :
  findSimilar (addVectors Sample.library [Sample.malformed]).1 [1; 0]%float 5 None
    = Throw dimension_mismatch.
Proof.
  apply findSimilar_mismatch_aborts.
  do 4 apply Exists_cons_tl. apply Exists_cons_hd. simpl. lia.
Defined.

(** C5 fails as stated: four well-formed records and one malformed record
    give an error, not the four results. *)
Lemma findSimilar_does_not_skip :
  findSimilar (addVectors Sample.library [Sample.malformed]).1 [1; 0]%float 5 None
    = Throw (Error "Vectors must have the same length") /\
  List.map (fun v => length (embedding v))
           (vectors (addVectors Sample.library [Sample.malformed]).1)
    = [2; 2; 2; 2; 1]%nat.
Proof. split; vm_compute; reflexivity. Qed.

Lemma getDocumentVectors_deleted (s : store) (d : jsstring) :
  getDocumentVectors (deleteDocument s d) d = [].
Proof.
  unfold getDocumentVectors, deleteDocument. simpl.
  induction (vectors s) as [|v l IH]; [reflexivity|].
  rewrite filter_cons. destruct (decide (documentId v <> d)) as [Hne|He].
  - rewrite filter_cons, decide_False by exact Hne. exact IH.
  - exact IH.
Qed.

Lemma getDocumentVectors_other (s : store) (d d' : jsstring) :
  d' <> d -> getDocumentVectors (deleteDocument s d) d' = getDocumentVectors s d'.
Proof.
  intros Hd. unfold getDocumentVectors, deleteDocument. simpl.
  apply list_filter_filter_l. intros v Hv. congruence.
Qed.

(** C7. After [deleteDocument(d)] of a registered document: no query returns
    a record of [d], [getDocumentVectors(d)] is empty, [totalDocuments] is
    one less, and the records and the entry of every other document are as
    before. *)
Theorem deleteDocument_isolation (s : store) (d : jsstring) (doc : Document) :
  getDocument s d = Some doc ->
  (forall q topK f rs,
     findSimilar (deleteDocument s d) q topK f = Ok rs ->
     Forall (fun r => r_documentId r <> d) rs) /\
  getDocumentVectors (deleteDocument s d) d = [] /\
  totalDocuments (getStats (deleteDocument s d)) = totalDocuments (getStats s) - 1 /\
  (forall d', d' <> d ->
     getDocumentVectors (deleteDocument s d) d' = getDocumentVectors s d' /\
     getDocument (deleteDocument s d) d' = getDocument s d').
Proof.
  intros Hdoc. split; [|split; [|split]].
  - intros q topK f rs H.
    apply findSimilar_from_candidates in H.
    eapply Forall_impl; [exact H|]. intros r (v & sim & Hv & ->). simpl.
    apply candidates_subseteq in Hv. simpl in Hv.
    apply list_elem_of_filter in Hv. tauto.
  - apply getDocumentVectors_deleted.
  - unfold getStats, deleteDocument, getDocument in *. simpl.
    rewrite map_size_delete_Some by (rewrite Hdoc; eauto).
    assert (size (documents s) <> 0%nat).
    { intros E. apply map_size_empty_inv in E. rewrite E in Hdoc.
      rewrite lookup_empty in Hdoc. discriminate. }
    lia.
  - intros d' Hd. split; [apply getDocumentVectors_other; exact Hd|].
    unfold getDocument, deleteDocument. simpl. apply lookup_delete_ne. congruence.
Qed.

(** C7 on the sample library, deleting its first document. *)
Lemma deleteDocument_isolation_witness :
  getDocumentVectors (deleteDocument Sample.library (lit "doc-a")) (lit "doc-a") = [] /\
  totalDocuments (getStats (deleteDocument Sample.library (lit "doc-a"))) = 2 - 1 /\
  getDocumentVectors (deleteDocument Sample.library (lit "doc-a")) (lit "doc-b")
    = [Sample.b0; Sample.b1].
Proof.
  destruct (Sample.library.(documents) !! lit "doc-a") as [doc|] eqn:E;
    [|vm_compute in E; discriminate].
  destruct (deleteDocument_isolation Sample.library (lit "doc-a") doc E)
    as (_ & H1 & H2 & H3).
  split; [exact H1|]. split; [exact H2|].
  destruct (H3 (lit "doc-b")) as [H4 _]; [vm_compute; congruence|].
  rewrite H4. vm_compute. reflexivity.
Defined.

(** C10. [deleteDocument] of an id that is neither registered nor the owner
    of a record leaves the store as it is, and deleting twice is the same as
    deleting once. *)
Theorem deleteDocument_idempotent (s : store) (d : jsstring) :
  (getDocument s d = None ->
   Forall (fun v => documentId v <> d) (vectors s) ->
   deleteDocument s d = s) /\
  deleteDocument (deleteDocument s d) d = deleteDocument s d.
Proof.
  split.
  - intros Hdoc Hv. destruct s as [vs docs]. unfold deleteDocument, getDocument in *.
    simpl in *. rewrite (filter_all _ vs Hv), (delete_id _ _ Hdoc). reflexivity.
  - unfold deleteDocument. simpl. f_equal.
    + apply list_filter_filter_l. tauto.
    + apply delete_delete_eq.
Qed.

(** C10 on the sample library and an id it does not know. *)
Lemma deleteDocument_idempotent_witness :
  deleteDocument Sample.library (lit "doc-z") = Sample.library /\
  deleteDocument (deleteDocument Sample.library (lit "doc-a")) (lit "doc-a")
    = deleteDocument Sample.library (lit "doc-a").
Proof.
  destruct (deleteDocument_idempotent Sample.library (lit "doc-z")) as [H _].
  destruct (deleteDocument_idempotent Sample.library (lit "doc-a")) as [_ H'].
  split; [|exact H']. apply H.
  - vm_compute. reflexivity.
  - repeat constructor; vm_compute; congruence.
Defined.

End VectorStoreClaims.

(** ** Sorting by similarity *)

Section SortFacts.
Import JS VectorStore Binary64.

Context {V : Type}.

(** Descending order of two scored records, on the keys. *)
Let desc (a b : V * float) : Prop := fkey b.2 <= fkey a.2.
Let numbers (l : list (V * float)) : Prop :=
  Forall (fun p => PrimFloat.is_nan p.2 = false) l.
Let cmp (a b : V * float) : float := (b.2 - a.2)%float.

Lemma insert_sorted_desc (x : V * float) (l : list (V * float)) :
  PrimFloat.is_nan x.2 = false -> numbers l ->
  StronglySorted desc l -> StronglySorted desc (insert_sorted cmp x l).
Proof.
  intros Nx Nl Hs. induction l as [|y r IH]; simpl.
  - repeat constructor.
  - inversion Nl as [|? ? Ny Nr]; subst. inversion Hs as [|? ? Hr Hy]; subst.
    unfold cmp at 1. rewrite sub_pos, ltb_key by assumption.
    destruct (fkey x.2 <? fkey y.2) eqn:E.
    + apply Z.ltb_lt in E. constructor; [apply IH; assumption|].
      rewrite insert_sorted_perm. constructor; [unfold desc; lia|exact Hy].
    + apply Z.ltb_ge in E. constructor; [exact Hs|].
      constructor; [exact E|].
      eapply Forall_impl; [exact Hy|]. unfold desc. intros z Hz. lia.
Qed.

Lemma sort_numbers (l : list (V * float)) : numbers l -> numbers (sort cmp l).
Proof. unfold numbers. rewrite sort_perm. tauto. Qed.

Lemma sort_desc (l : list (V * float)) : numbers l -> StronglySorted desc (sort cmp l).
Proof.
  induction 1 as [|x l Nx Nl IH]; simpl; [constructor|].
  apply insert_sorted_desc; [exact Nx|apply sort_numbers; exact Nl|exact IH].
Qed.

Lemma desc_leb (l : list (V * float)) :
  numbers l -> StronglySorted desc l ->
  StronglySorted (fun a b => (b.2 <=? a.2)%float = true) l.
Proof.
  intros Nl Hd. induction Hd as [|a l Hl IH Ha]; [constructor|].
  inversion Nl as [|? ? Na Nl']; subst.
  constructor; [apply IH; exact Nl'|].
  apply list.Forall_forall. intros b Hb.
  unfold numbers in Nl'. rewrite list.Forall_forall in Ha, Nl'.
  rewrite leb_key by auto. apply Z.leb_le. apply Ha. exact Hb.
Qed.

(** The sorted list is descending in the order of the numbers. *)
Lemma sort_sorted (l : list (V * float)) :
  numbers l -> StronglySorted (fun a b => (b.2 <=? a.2)%float = true) (sort cmp l).
Proof.
  intros Nl. apply desc_leb; [apply sort_numbers; exact Nl|apply sort_desc; exact Nl].
Qed.

Lemma insert_sorted_stable (k : Z) (x : V * float) (l : list (V * float)) :
  PrimFloat.is_nan x.2 = false -> numbers l ->
  filter (fun p => fkey p.2 = k) (insert_sorted cmp x l)
  = filter (fun p => fkey p.2 = k) (x :: l).
Proof.
  intros Nx Nl. induction Nl as [|y r Ny Nr IH]; simpl; [reflexivity|].
  unfold cmp at 1. rewrite sub_pos, ltb_key by assumption.
  destruct (fkey x.2 <? fkey y.2) eqn:E; [|reflexivity].
  apply Z.ltb_lt in E.
  rewrite (filter_cons _ y), IH, !filter_cons.
  destruct (decide (fkey y.2 = k)), (decide (fkey x.2 = k)); try reflexivity; lia.
Qed.

Lemma sort_stable (k : Z) (l : list (V * float)) :
  numbers l ->
  filter (fun p => fkey p.2 = k) (sort cmp l) = filter (fun p => fkey p.2 = k) l.
Proof.
  induction 1 as [|x l Nx Nl IH]; simpl; [reflexivity|].
  rewrite insert_sorted_stable by (try apply sort_numbers; assumption).
  rewrite !filter_cons, IH. reflexivity.
Qed.

End SortFacts.

Section TopK.
Import JS VectorStore Binary64.

Lemma slice_nil {A} (a b : Z) : slice (@nil A) a b = [].
Proof. unfold slice. rewrite drop_nil, take_nil. reflexivity. Qed.

Lemma is_nan_Prim2SF (x : float) : PrimFloat.is_nan x = true -> Prim2SF x = S754_nan.
Proof.
  unfold PrimFloat.is_nan. rewrite FloatAxioms.eqb_spec. unfold SFeqb. intros H.
  destruct (Prim2SF x) as [s|s| |s m e] eqn:E; try reflexivity; exfalso.
  - discriminate.
  - destruct s; discriminate.
  - rewrite SFcompare_key in H; try (rewrite <- E; apply Prim2SF_valid);
      try (unfold not_nan; discriminate).
    rewrite Z.compare_refl in H. discriminate.
Qed.

Lemma eqb_nan_r (x y : float) : PrimFloat.is_nan y = true -> (x =? y)%float = false.
Proof.
  intros H. rewrite FloatAxioms.eqb_spec, (is_nan_Prim2SF y H). unfold SFeqb.
  destruct (Prim2SF x); reflexivity.
Qed.

(** On numbers, the ties of a value [x] are the records whose key is the key
    of [x]. *)
Lemma filter_ties {V} (x : float) (l : list (V * float)) :
  Forall (fun p => PrimFloat.is_nan p.2 = false) l ->
  filter (fun p => (p.2 =? x)%float = true) l =
  if PrimFloat.is_nan x then [] else filter (fun p => fkey p.2 = fkey x) l.
Proof.
  intros Nl. destruct (PrimFloat.is_nan x) eqn:Nx.
  - induction l as [|p l IH]; [reflexivity|].
    rewrite filter_cons, decide_False; [apply IH; inversion Nl; assumption|].
    rewrite (eqb_nan_r _ _ Nx). discriminate.
  - induction Nl as [|p l Np Nl IH]; [reflexivity|].
    rewrite !filter_cons, IH. rewrite (eqb_key _ _ Np Nx).
    destruct (decide ((fkey p.2 =? fkey x) = true)) as [E|E],
             (decide (fkey p.2 = fkey x)) as [E'|E']; try reflexivity.
    + apply Z.eqb_eq in E. contradiction.
    + apply Z.eqb_eq in E'. contradiction.
Qed.

Lemma with_similarity_numbers {V} (emb : V -> list float) (q : list float) (l : list V) :
  Forall (fun v => PrimFloat.is_nan (cosine q (emb v)) = false) l ->
  Forall (fun p => PrimFloat.is_nan p.2 = false) (with_similarity emb q l).
Proof. intros H. unfold with_similarity. apply Forall_map. exact H. Qed.

(** The query on well-formed candidates: the scored candidates, sorted, cut
    to [topK] and stripped. *)
Lemma findSimilar_well_formed (s : store) (q : list float) (topK : Z) (f : option jsstring) :
  Forall (fun v => length (embedding v) = length q) (candidates s f) ->
  findSimilar s q topK f =
  Ok (List.map strip
        (slice (sort by_similarity (with_similarity embedding q (candidates s f))) 0 topK)).
Proof.
  intros H. unfold findSimilar. rewrite (mapM_score_ok q _ H). reflexivity.
Qed.

(** C4, as the code has it. When [topK >= 0], every candidate embedding is
    as long as the query vector and every similarity is a number (not NaN),
    [findSimilar] returns the first [topK] of the scored candidates sorted
    descending by similarity, with ties in insertion order, each without its
    embedding; these are [min topK n] records for [n] candidates, and none
    on a store without vectors. *)
Theorem findSimilar_topK (s : store) (q : list float) (topK : Z) (f : option jsstring) :
  0 <= topK ->
  Forall (fun v => length (embedding v) = length q) (candidates s f) ->
  Forall (fun v => PrimFloat.is_nan (cosine q (embedding v)) = false) (candidates s f) ->
  exists sorted : list (VectorRecord * float),
    Permutation sorted (with_similarity embedding q (candidates s f)) /\
    StronglySorted (fun a b => (b.2 <=? a.2)%float = true) sorted /\
    (forall x : float,
       filter (fun p => (p.2 =? x)%float = true) sorted
       = filter (fun p => (p.2 =? x)%float = true)
                (with_similarity embedding q (candidates s f))) /\
    findSimilar s q topK f = Ok (List.map strip (take (Z.to_nat topK) sorted)) /\
    len (List.map strip (take (Z.to_nat topK) sorted)) = Z.min topK (len (candidates s f)) /\
    (vectors s = [] -> findSimilar s q topK f = Ok []).
Proof.
  intros Hk Hlen Hnum.
  set (scored := with_similarity embedding q (candidates s f)).
  pose proof (with_similarity_numbers embedding q _ Hnum) as Ns. fold scored in Ns.
  pose proof (sort_numbers scored Ns) as Nsorted.
  exists (sort by_similarity scored).
  split; [apply sort_perm|]. split; [|split; [|split; [|split]]].
  - apply (sort_sorted scored Ns).
  - intros x. rewrite !filter_ties by assumption.
    destruct (PrimFloat.is_nan x); [reflexivity|]. apply sort_stable. exact Ns.
  - rewrite (findSimilar_well_formed s q topK f Hlen), slice_prefix by exact Hk.
    reflexivity.
  - unfold len. rewrite length_map, length_take.
    rewrite (Permutation_length (sort_perm by_similarity scored)).
    unfold scored, with_similarity. rewrite length_map. lia.
  - intros Hv. unfold findSimilar, candidates. rewrite Hv.
    destruct f as [[|c d]|]; simpl; rewrite slice_nil; reflexivity.
Qed.

(** C4 on the sample library: the two best matches of [1; 0] among its four
    records. *)
Lemma findSimilar_topK_witness :
  exists sorted : list (VectorRecord * float),
    findSimilar Sample.library [1; 0]%float 2 None
      = Ok (List.map strip (take (Z.to_nat 2) sorted)) /\
    len (List.map strip (take (Z.to_nat 2) sorted))
      = Z.min 2 (len (candidates Sample.library None)).
Proof.
  destruct (findSimilar_topK Sample.library [1; 0]%float 2 None)
    as (sorted & _ & _ & _ & H & L & _).
  - lia.
  - change (candidates Sample.library None)
      with [Sample.a0; Sample.a1; Sample.b0; Sample.b1].
    repeat (constructor; [reflexivity|]). constructor.
  - change (candidates Sample.library None)
      with [Sample.a0; Sample.a1; Sample.b0; Sample.b1].
    repeat (constructor; [vm_compute; reflexivity|]). constructor.
  - exists sorted. split; [exact H|exact L].
Defined.

(** C4 fails as stated: the vectors [1; 0] and [2^600; 0] are as long as the
    query [2^600; 0] and their norms are not zero, but the squares overflow,
    the second similarity is NaN, and the answer is not sorted. *)
Lemma findSimilar_overflow_not_sorted :
  List.map euclidean_norm [[0x1p600; 0]; [1; 0]; [0x1p600; 0]]%float
    = [infinity; 1; infinity]%float /\
  (exists rs,
     findSimilar (addVectors empty [Sample.a0; Sample.huge]).1 [0x1p600; 0]%float 5 None
       = Ok rs /\
     List.map similarity rs = [0%float; nan] /\
     ~ StronglySorted (fun a b => (similarity b <=? similarity a)%float = true) rs).
Proof.
  split; [vm_compute; reflexivity|].
  eexists. split; [vm_compute; reflexivity|]. split; [reflexivity|].
  intros Hd.
  inversion Hd as [|? ? _ Ha]; subst. inversion Ha as [|? ? Hb _]; subst.
  vm_compute in Hb. discriminate.
Qed.

End TopK.

(** ** More on the chunker *)

Section ChunkerMore.
Import JS Chunker.

Lemma slice_infix {A} (s : list A) (a b : Z) :
  exists u w, s = u ++ slice s a b ++ w.
Proof.
  unfold slice.
  exists (take (Z.to_nat (rel_index (len s) a)) s),
         (drop (Z.to_nat (rel_index (len s) b - rel_index (len s) a))
               (drop (Z.to_nat (rel_index (len s) a)) s)).
  rewrite !take_drop. reflexivity.
Qed.

Lemma trim_infix (s : jsstring) : exists u w, s = u ++ trim s ++ w.
Proof.
  unfold trim.
  destruct (trimStart_suffix s) as [u Hu].
  destruct (trimEnd_prefix (trimStart s)) as [w Hw].
  exists u, w. rewrite <- Hw. exact Hu.
Qed.

Lemma slice_length_le {A} (s : list A) (a b : Z) :
  0 <= a -> 0 <= b -> len (slice s a b) <= Z.max 0 (b - a).
Proof.
  intros Ha Hb. unfold slice, len. rewrite length_take, length_drop.
  pose proof (len_nonneg s). unfold len in *.
  rewrite (rel_index_nonneg _ a Ha), (rel_index_nonneg _ b Hb). lia.
Qed.

(** A property of every trimmed window, and of the chunks collected before,
    is a property of every chunk returned. *)
Lemma chunk_loop_all (P : Z -> jsstring -> Prop) (text : jsstring) chunkSize overlap result :
  (forall start, P start (trim (slice text start (window_end text chunkSize start)))) ->
  forall fuel start chunks,
    Forall (fun c => exists s, P s c) chunks ->
    chunk_loop fuel text chunkSize overlap start chunks = Some result ->
    Forall (fun c => exists s, P s c) result.
Proof.
  intros HP. induction fuel as [|fuel IH]; intros start chunks Hc H.
  - rewrite chunk_loop_eq in H.
    destruct (start <? len text); [discriminate|]. injection H as <-. exact Hc.
  - destruct (Z.lt_ge_cases start (len text)) as [Hlt|Hge].
    + rewrite chunk_loop_step in H by exact Hlt. eapply IH; [|exact H].
      apply Forall_app. split; [exact Hc|].
      apply list.Forall_forall. intros c Hin.
      apply list_elem_of_filter in Hin. destruct Hin as [_ Hin].
      apply list_elem_of_singleton in Hin. subst c. exists start. apply HP.
    + rewrite chunk_loop_done in H by exact Hge. injection H as <-. exact Hc.
Qed.

(** Every chunk is a piece of the text: it occurs in it verbatim. *)
Theorem chunkText_chunks_occur (text : jsstring) (chunkSize overlap : Z) (fuel : nat)
    (chunks : list jsstring) :
  chunkText_fuel fuel text chunkSize overlap = Some chunks ->
  Forall (fun c => exists u w, text = u ++ c ++ w) chunks.
Proof.
  intros H. unfold chunkText_fuel in H.
  pose proof (chunk_loop_all (fun _ c => exists u w, text = u ++ c ++ w)
                text chunkSize overlap chunks) as A.
  eapply Forall_impl; [eapply A; [|constructor|exact H]|].
  - intros start.
    destruct (slice_infix text start (window_end text chunkSize start)) as (u & w & E).
    destruct (trim_infix (slice text start (window_end text chunkSize start)))
      as (u' & w' & E').
    exists (u ++ u'), (w' ++ w). rewrite E at 1. rewrite E' at 1.
    rewrite <- !app_assoc. reflexivity.
  - intros c [_ Hc]. exact Hc.
Qed.

Lemma chunkText_chunks_occur_witness :
  Forall (fun c => exists u w, lit "One. Two." = u ++ c ++ w) [lit "One. Two."].
Proof.
  apply (chunkText_chunks_occur (lit "One. Two.") 1000 200 1 [lit "One. Two."]).
  vm_compute. reflexivity.
Defined.

(** With the progress condition and [overlap >= 0] the loop keeps
    [start >= 0], and what it adds has at most [chunkSize + 1] code units. *)
Lemma chunk_loop_lengths (text : jsstring) chunkSize overlap result :
  0 <= overlap -> overlap < chunkSize -> 2 * overlap <= chunkSize ->
  forall fuel start chunks,
    0 <= start ->
    Forall (fun c => len c <= chunkSize + 1) chunks ->
    chunk_loop fuel text chunkSize overlap start chunks = Some result ->
    Forall (fun c => len c <= chunkSize + 1) result.
Proof.
  intros H0 H1 H2. induction fuel as [|fuel IH]; intros start chunks Hs Hc H.
  - rewrite chunk_loop_eq in H.
    destruct (start <? len text); [discriminate|]. injection H as <-. exact Hc.
  - destruct (Z.lt_ge_cases start (len text)) as [Hlt|Hge].
    + rewrite chunk_loop_step in H by exact Hlt.
      pose proof (window_end_advances text chunkSize overlap start H1 H2) as Ha.
      eapply IH; [|..|exact H]; [lia|].
      apply Forall_app. split; [exact Hc|].
      apply list.Forall_forall. intros c Hin.
      apply list_elem_of_filter in Hin. destruct Hin as [_ Hin].
      apply list_elem_of_singleton in Hin. subst c.
      pose proof (trim_length (slice text start (window_end text chunkSize start))) as Ht.
      assert (He : 0 <= window_end text chunkSize start) by lia.
      pose proof (slice_length_le text start (window_end text chunkSize start) Hs He) as Hl.
      unfold len in *.
      destruct (window_end_cases text chunkSize start) as [E|(_ & _ & B)]; lia.
    + rewrite chunk_loop_done in H by exact Hge. injection H as <-. exact Hc.
Qed.

(** A chunk has at most [chunkSize + 1] code units, one more than the window:
    the search for a terminator starts at index [start + chunkSize] itself,
    and the chunk then ends after it. A full stop at index 1000 gives a first
    chunk of 1001 units. *)
Theorem chunkText_chunk_length (text : jsstring) (chunkSize overlap : Z) (fuel : nat)
    (chunks : list jsstring) :
  0 <= overlap -> overlap < chunkSize -> 2 * overlap <= chunkSize ->
  chunkText_fuel fuel text chunkSize overlap = Some chunks ->
  Forall (fun c => len c <= chunkSize + 1) chunks /\
  option_map (List.map len)
    (chunkText_fuel 3 (repeat 97%N 1000 ++ [period] ++ repeat 97%N 500) 1000 200)
  = Some [1001; 700].
Proof.
  intros H0 H1 H2 H. split.
  - apply (chunk_loop_lengths text chunkSize overlap chunks H0 H1 H2 fuel 0 []);
      [lia|constructor|exact H].
  - vm_compute. reflexivity.
Qed.

Lemma chunkText_chunk_length_witness :
  Forall (fun c => len c <= 4 + 1) [lit "abcd."; lit ".efg"; lit "gh"].
Proof.
  apply (chunkText_chunk_length (lit "abcd.efgh") 4 1 3 _); [lia|lia|lia|].
  vm_compute. reflexivity.
Defined.

Lemma trim_blank (s : jsstring) : Forall (fun c => is_space c = true) s -> trim s = [].
Proof.
  intros H. unfold trim.
  assert (E : trimStart s = []).
  { induction H as [|x r Hx _ IH]; simpl; [reflexivity|]. rewrite Hx. exact IH. }
  rewrite E. reflexivity.
Qed.

Lemma chunk_loop_blank (text : jsstring) chunkSize overlap :
  Forall (fun c => is_space c = true) text ->
  forall fuel start chunks result,
    chunk_loop fuel text chunkSize overlap start chunks = Some result -> result = chunks.
Proof.
  intros Hb. induction fuel as [|fuel IH]; intros start chunks result H.
  - rewrite chunk_loop_eq in H.
    destruct (start <? len text); [discriminate|]. congruence.
  - destruct (Z.lt_ge_cases start (len text)) as [Hlt|Hge].
    + rewrite chunk_loop_step in H by exact Hlt.
      rewrite trim_blank in H.
      * simpl in H. rewrite app_nil_r in H. exact (IH _ _ _ H).
      * unfold slice. apply Forall_take, Forall_drop. exact Hb.
    + rewrite chunk_loop_done in H by exact Hge. congruence.
Qed.

(** A text made of white space only, the empty text included, gives no chunk. *)
Theorem chunkText_blank (text : jsstring) :
  Forall (fun c => is_space c = true) text ->
  chunkText_default text = Some [].
Proof.
  intros Hb. unfold chunkText_default.
  destruct (chunkText_fuel_enough text 1000 200) as [chunks Hc]; [lia..|].
  rewrite (Hc (length text) (Nat.le_refl _)). f_equal.
  apply (chunk_loop_blank text 1000 200 Hb (length text) 0 [] chunks).
  exact (Hc (length text) (Nat.le_refl _)).
Qed.

Lemma chunkText_blank_witness : chunkText_default [32; 10; 32; 9]%N = Some [].
Proof.
  apply chunkText_blank.
  repeat (apply List.Forall_cons; [reflexivity|]). apply List.Forall_nil.
Defined.

End ChunkerMore.
